(** * CCS: curvature constrained splines -- [ccs/spline_functions.py]

    A shallow embedding of the spline routines of the CCS package
    ([spline_construction], [spline_eval012], [spline_energy_model] and the
    [Twobody] class) together with the properties of its specification.

    Conventions of the embedding.
    - A Python/NumPy float is an exact rational ([Qc], canonical rationals,
      so that equality is Leibniz equality).  Rounding error, signed zeros
      and non-finite values are not represented; where NumPy would produce
      [inf] or [nan] and then fail converting it to an integer, the error is
      raised in the model at that conversion.  The entries of [D] are
      [x / dx]; for [dx = 0] NumPy stores non-finite entries there and the
      model's [D] is meaningless, so every statement about [D] assumes
      [dx <> 0].
    - A 1-d [ndarray] is a [list Qc], a 2-d [ndarray] a list of rows.
    - Python integers are [Z]; indexing follows Python (negative indices
      count from the end, anything else out of range raises [IndexError]).
    - A computation that can raise is a value of [py A = pyerr + A].
    - Where a statement depends on how a quotient or a sum is rounded, the
      lines concerned are embedded a second time on binary64 floats
      (module [Binary64]) and evaluated there. *)

From Stdlib Require Import PrimFloat.
From Stdlib Require FloatOps SpecFloat.
From Stdlib Require Import QArith Qcanon Qround ZArith Lia Lqa String.
From stdpp Require Import base numbers list.

Local Open Scope Z_scope.
Local Open Scope Qc_scope.

(** ** Exceptions *)

Inductive pyerr : Type :=
  | ZeroDivisionError
  | ValueError
  | IndexError
  | OverflowError
  | TypeError.

#[global] Instance pyerr_eq_dec : EqDecision pyerr.
Proof. solve_decision. Defined.

Definition py : Type → Type := sum pyerr.

#[global] Instance py_eq_dec {A} `{EqDecision A} : EqDecision (py A).
Proof. unfold py. apply _. Defined.

Definition raise {A} (e : pyerr) : py A := inl e.

#[global] Instance py_ret : MRet py := λ A x, inr x.
#[global] Instance py_bind : MBind py := λ A B f m,
  match m with
  | inl e => inl e
  | inr x => f x
  end.

Definition succeeds {A} (m : py A) : bool :=
  match m with inr _ => true | inl _ => false end.

Definition raises {A} (m : py A) : bool := negb (succeeds m).

(** Monadic left fold: the body of a [for] loop that may raise. *)
Fixpoint foldM {A B} (f : B → A → py B) (b : B) (l : list A) : py B :=
  match l with
  | [] => mret b
  | a :: l => b' ← f b a; foldM f b' l
  end.

(** ** Numbers *)

Definition qc (n : Z) (d : positive) : Qc := Q2Qc (n # d).

(** [np.rint]: round to the nearest integer, ties to the even one. *)
Definition np_rint (q : Q) : Z :=
  let f := Qfloor q in
  match (q - inject_Z f ?= 1 # 2)%Q with
  | Lt => f
  | Gt => (f + 1)%Z
  | Eq => if Z.even f then f else (f + 1)%Z
  end.

(** [np.around(q, decimals=5)]: scale by [10^5], [rint], scale back. *)
Definition np_around5 (q : Qc) : Qc :=
  Q2Qc (inject_Z (np_rint (q * 100000)%Q) / 100000)%Q.

(** [int(np.ceil(q))] *)
Definition np_ceil (q : Qc) : Z := Qceiling q.

(** ** Arrays *)

Abbreviation vec := (list Qc).
Abbreviation matrix := (list (list Qc)).

(** [l[i]] with Python's index rule. *)
Definition py_index {A} (l : list A) (i : Z) : py A :=
  let n := Z.of_nat (length l) in
  let k := if bool_decide (i < 0)%Z then (n + i)%Z else i in
  if bool_decide (0 ≤ k < n)%Z then
    match l !! Z.to_nat k with
    | Some a => mret a
    | None => raise IndexError
    end
  else raise IndexError.

(** [range(n)] and [range(n, -1, -1)] *)
Definition py_range (n : Z) : list Z := seqZ 0 n.
Definition py_range_down (n : Z) : list Z := reverse (seqZ 0 (n + 1)).

(** [np.zeros(n)] and [np.zeros((rows, cols))]; a negative dimension is a
    [ValueError]. *)
Definition np_zeros1 (n : Z) : vec := replicate (Z.to_nat n) 0.

Definition np_zeros (rows cols : Z) : py matrix :=
  if bool_decide (rows < 0 ∨ cols < 0)%Z then raise ValueError
  else mret (replicate (Z.to_nat rows) (np_zeros1 cols)).

(** [M[mask] = val] where [mask] is a boolean array computed from
    [i, j = np.indices(M.shape)]. *)
Definition mask_set (mask : Z → Z → bool) (val : Qc) (M : matrix) : matrix :=
  imap (λ i row, imap (λ j x,
    if mask (Z.of_nat i) (Z.of_nat j) then val else x) row) M.

(** [np.fill_diagonal(M, val, wrap=True)] on a 2-d array with [cols]
    columns is [M.flat[::cols + 1] = val]: the entry at [(i, j)] has flat
    position [i * cols + j]. *)
Definition np_fill_diagonal_wrap (cols : Z) (val : Qc) (M : matrix) : matrix :=
  mask_set (λ i j, bool_decide (((i * cols + j) `mod` (cols + 1))%Z = 0%Z)) val M.

(** [np.roll(l, 1)]: the last element comes first. *)
Definition np_roll1 {A} (l : list A) : list A :=
  let n := (length l - 1)%nat in drop n l ++ take n l.

(** [np.roll(M, 1, axis=1)] *)
Definition np_roll1_axis1 (M : matrix) : matrix := np_roll1 <$> M.

(** [np.delete(M, 0, 0)] *)
Definition np_delete0 (M : matrix) : py matrix :=
  match M with
  | [] => raise IndexError
  | _ :: M' => mret M'
  end.

(** [np.vstack((M, np.zeros(cols)))] *)
Definition np_vstack_zeros (cols : Z) (M : matrix) : matrix :=
  M ++ [np_zeros1 cols].

(** Elementwise operations with a scalar. *)
Definition vscale (l : vec) (s : Qc) : vec := (λ x, x * s) <$> l.
Definition vdiv (l : vec) (s : Qc) : vec := (λ x, x / s) <$> l.
Definition mscale (M : matrix) (s : Qc) : matrix := (λ row, vscale row s) <$> M.
Definition mdiv (M : matrix) (s : Qc) : matrix := (λ row, vdiv row s) <$> M.

(** [M[row][col] = val] for indices in range. *)
Definition mset (M : matrix) (row col : Z) (val : Qc) : matrix :=
  alter (λ r, <[Z.to_nat col := val]> r) (Z.to_nat row) M.

(** Elementwise sum of two arrays of the same shape; NumPy refuses to
    broadcast different lengths. *)
Definition vadd (u w : vec) : vec := zip_with Qcplus u w.

(** ** [spline_construction] *)

Section construction.
Variables (rows cols : Z) (dx : Qc).

Definition build_C : py matrix :=
  C ← np_zeros rows cols;
  let C := np_fill_diagonal_wrap cols 1 C in
  mret (np_roll1_axis1 C).

Definition build_D : py matrix :=
  D ← np_zeros rows cols;
  let D := mask_set (λ i j, bool_decide (i = j)) (- 1) D in
  let D := mask_set (λ i j, bool_decide (i = j - 1)%Z) 1 D in
  mret (mdiv D dx).

Definition build_B : py matrix :=
  B ← np_zeros rows cols;
  let B := mask_set (λ i j, bool_decide (i = j)) (- qc 1 2) B in
  let B := mask_set (λ i j, bool_decide (i < j)%Z) (- 1) B in
  let B := mask_set (λ i j, bool_decide (j = cols - 1)%Z) (- qc 1 2) B in
  B ← np_delete0 B;
  let B := np_vstack_zeros cols B in
  mret (mscale B dx).

(** Body of the inner loop [for col in range(cols - 2, -1, -1)]. *)
Definition A_inner (row : Z) (A : matrix) (col : Z) : matrix :=
  let A := if bool_decide (row = col) then mset A row col (qc 1 6) else A in
  if bool_decide (col > row)%Z then mset A row col (Qc_of_Z (col - row)) else A.

(** Body of the outer loop [for row in range(rows - 1, -1, -1)]; the
    state is the array and [tmp]. *)
Definition A_outer (st : matrix * Qc) (row : Z) : matrix * Qc :=
  let '(A, tmp) := st in
  let A := mset A row (cols - 1) tmp in
  let tmp := tmp + qc 1 2 in
  (foldl (A_inner row) A (py_range_down (cols - 2)), tmp).

(** [A[row][cols - 1] = tmp] raises [IndexError] on a row of length 0,
    which the first iteration meets when [cols = 0]. *)
Definition build_A : py matrix :=
  A ← np_zeros rows cols;
  A ← (if bool_decide (0 < rows ∧ cols = 0)%Z then raise IndexError
       else mret (foldl A_outer (A, qc 1 3) (py_range_down (rows - 1))).1);
  A ← np_delete0 A;
  let A := np_vstack_zeros cols A in
  mret (mscale (mscale A dx) dx).

(** Returns [(C, D, B, A)]. *)
Definition spline_construction : py (matrix * matrix * matrix * matrix) :=
  C ← build_C;
  D ← build_D;
  B ← build_B;
  A ← build_A;
  mret (C, D, B, A).
End construction.

(** ** [spline_eval012] *)

(** Segment index of the evaluator: [1] at [r == Rmin], otherwise
    [int(np.ceil((r - Rmin) / dx))].  The arguments are Python floats, so a
    zero [dx] raises [ZeroDivisionError]. *)
Definition eval_index (r Rmin dx : Qc) : py Z :=
  if bool_decide (r = Rmin) then mret 1%Z
  else if bool_decide (dx = 0) then raise ZeroDivisionError
  else mret (np_ceil ((r - Rmin) / dx)).

(** Returns [(f0, f1, f2)]; the diagnostic [print] is not modelled. *)
Definition spline_eval012 (a b c d : vec) (r Rcut Rmin dx : Qc) (x : vec)
  : py (Qc * Qc * Qc) :=
  index ← eval_index r Rmin dx;
  if bool_decide (1 ≤ index)%Z then
    xi ← py_index x index;
    let dr := r - xi in
    ai ← py_index a (index - 1);
    bi ← py_index b (index - 1);
    ci ← py_index c (index - 1);
    di ← py_index d (index - 1);
    let f0 := ai + dr * (bi + dr * (qc 1 2 * ci + di * dr / qc 3 1)) in
    let f1 := bi + dr * (ci + qc 1 2 * di * dr) in
    let f2 := ci + di * dr in
    mret (f0, f1, f2)
  else raise ValueError.

(** ** [spline_energy_model] *)

(** Segment index of the design-matrix builder:
    [int(np.ceil(np.around((r - Rmin) / dx, decimals=5)))].  Here [r] is a
    NumPy scalar: dividing by a zero [dx] gives [nan] (from [0/0]) or an
    infinity, and [int] then raises [ValueError] or [OverflowError]. *)
Definition model_index (r Rmin dx : Qc) : py Z :=
  if bool_decide (dx = 0) then
    if bool_decide (r - Rmin = 0) then raise ValueError else raise OverflowError
  else mret (np_ceil (np_around5 ((r - Rmin) / dx))).

(** The accumulator [u] starts as the Python integer [0] and becomes an
    array at the first addition of a row. *)
Inductive ndval : Type :=
  | Scalar (q : Qc)
  | Array (w : vec).

(** [u + w] for an array [w]; the arrays added here are rows of the basis
    matrices, which all have [cols] entries. *)
Definition nd_add (u : ndval) (w : vec) : ndval :=
  match u with
  | Scalar q => Array ((λ y, q + y) <$> w)
  | Array u => Array (vadd u w)
  end.

(** The value stored by [v[config, :] = u]. *)
Definition assign_row (cols : Z) (u : ndval) : vec :=
  match u with
  | Scalar q => replicate (Z.to_nat cols) q
  | Array w => w
  end.

Section energy_model.
Variables (Rcut Rmin : Qc) (df : matrix) (cols : Z) (dx : Qc) (size : Z)
          (x : vec).

(** Body of [for r in distances]. *)
Definition pair_term (CDBA : matrix * matrix * matrix * matrix)
    (u : ndval) (r : Qc) : py ndval :=
  let '(C, D, B, A) := CDBA in
  index ← model_index r Rmin dx;
  xi ← py_index x index;
  let delta := r - xi in
  a ← py_index A (index - 1);
  Bi ← py_index B (index - 1);
  let b := vscale Bi delta in
  Di ← py_index D (index - 1);
  let d := vdiv (vscale Di (delta ^ 3)) (qc 6 1) in
  Ci ← py_index C (index - 1);
  let c_d := vdiv (vscale Ci (delta ^ 2)) (qc 2 1) in
  mret (nd_add (nd_add (nd_add (nd_add u a) b) c_d) d).

(** [[i for i in row if i <= Rcut and i >= Rmin]] *)
Definition qualifying (row : vec) : vec :=
  filter (λ i, i ≤ Rcut ∧ Rmin ≤ i) row.

(** [u = 0] followed by the loop [for r in distances]. *)
Definition accumulate (CDBA : matrix * matrix * matrix * matrix)
    (distances : vec) : py ndval :=
  foldM (pair_term CDBA) (Scalar 0) distances.

(** Body of [for config in range(size)]. *)
Definition config_row (CDBA : matrix * matrix * matrix * matrix)
    (v : matrix) (config : Z) : py matrix :=
  row ← py_index df config;
  let distances := qualifying row in
  u ← accumulate CDBA distances;
  mret (<[Z.to_nat config := assign_row cols u]> v).

Definition spline_energy_model : py matrix :=
  CDBA ← spline_construction (cols - 1) cols dx;
  v ← np_zeros size cols;
  foldM (config_row CDBA) v (py_range size).
End energy_model.

(** ** [Twobody] *)

(** [np.linspace(start, stop, num)] (endpoint included). *)
Definition np_linspace (start stop : Qc) (num : Z) : py vec :=
  if bool_decide (num < 0)%Z then raise ValueError
  else
    let div := (num - 1)%Z in
    let delta := stop - start in
    let y := Qc_of_Z <$> py_range num in
    let y := if bool_decide (0 < div)%Z
             then (λ i, i * (delta / Qc_of_Z div)) <$> y
             else (λ i, i * delta) <$> y in
    let y := (λ i, i + start) <$> y in
    mret (if bool_decide (1 < num)%Z then <[Z.to_nat (num - 1) := stop]> y else y).

Module Twobody.
Record t : Type := mk {
  name : string;
  Rcut : Qc;
  Rmin : Qc;
  Nknots : Z;
  Nswitch : option Z;
  Dismat : matrix;
  Nconfigs : Z;
  dx : Qc;
  cols : Z;
  interval : vec;
  C : matrix;
  D : matrix;
  B : matrix;
  A : matrix;
  v : matrix;
}.

(** [get_v], on the attributes it reads. *)
Definition get_v (Rcut Rmin : Qc) (Dismat : matrix) (cols : Z) (dx : Qc)
    (Nconfigs : Z) (interval : vec) : py matrix :=
  spline_energy_model Rcut Rmin Dismat cols dx Nconfigs interval.

(** [__init__]; [Rmin] and [Nswitch] default to [None].  [Rcut], [Rmin]
    are Python floats and [Nknots] a Python integer, so [Nknots = 0] is a
    [ZeroDivisionError] and a missing [Rmin] a [TypeError]. *)
Definition init (name : string) (Dismat : matrix) (Nconfigs : Z) (Rcut : Qc)
    (Nknots : Z) (Rmin : option Qc) (Nswitch : option Z) : py t :=
  Rmin ← match Rmin with Some m => mret m | None => raise TypeError end;
  dx ← (if bool_decide (Nknots = 0)%Z then raise ZeroDivisionError
        else mret ((Rcut - Rmin) / Qc_of_Z Nknots));
  let cols := (Nknots + 1)%Z in
  interval ← np_linspace Rmin Rcut cols;
  '(C, D, B, A) ← spline_construction (cols - 1) cols dx;
  v ← get_v Rcut Rmin Dismat cols dx Nconfigs interval;
  mret (mk name Rcut Rmin Nknots Nswitch Dismat Nconfigs dx cols interval
           C D B A v).
End Twobody.

(** * The same lines on binary64 floats

    [numpy.float64] and the Python [float] are IEEE binary64 numbers.
    Where a statement depends on how a quotient or a sum is rounded, the
    lines concerned are embedded a second time on the primitive binary64
    floats, operation by operation in the order the source writes them.
    Decoding a float ([FloatOps.Prim2SF]) gives its exact value
    [m * 2^e], from which [np.rint], [np.ceil] and [int] are computed
    exactly. *)

Module Binary64.
Local Open Scope float_scope.

Abbreviation fvec := (list float).
Abbreviation fmatrix := (list (list float)).

(** A Python integer as a float; exact below [2^53]. *)
Definition of_int (z : Z) : float :=
  match z with
  | Z0 => 0
  | Zpos p => FloatOps.SF2Prim (SpecFloat.S754_finite false p 0)
  | Zneg p => FloatOps.SF2Prim (SpecFloat.S754_finite true p 0)
  end.

(** [int(np.ceil(x))]: [np.ceil] passes [nan] and the infinities on, and
    [int] refuses them. *)
Definition int_ceil (x : float) : py Z :=
  match FloatOps.Prim2SF x with
  | SpecFloat.S754_nan => raise ValueError
  | SpecFloat.S754_infinity _ => raise OverflowError
  | SpecFloat.S754_zero _ => mret 0%Z
  | SpecFloat.S754_finite s m e =>
      let n := if s then Zneg m else Zpos m in
      mret (- Z.shiftl (- n) e)%Z
  end.

(** [np.rint]: the nearest integer, ties to the even one, with the sign
    of the argument. *)
Definition np_rint (x : float) : float :=
  match FloatOps.Prim2SF x with
  | SpecFloat.S754_finite s m e =>
      if (e <? 0)%Z then
        let k := (- e)%Z in
        let q := Z.shiftr (Zpos m) k in
        let rem := (Zpos m - Z.shiftl q k)%Z in
        let half := Z.shiftl 1 (k - 1) in
        let n := if (rem <? half)%Z then q
                 else if (half <? rem)%Z then (q + 1)%Z
                 else if Z.even q then q else (q + 1)%Z in
        if s then - of_int n else of_int n
      else x
  | _ => x
  end.

(** [np.around(q, decimals=5)]: multiply by [10**5], [rint], divide. *)
Definition np_around5 (q : float) : float := np_rint (q * 100000) / 100000.

(** [np.power(x, 2)] and [np.power(x, 3)].  NumPy calls the C library's
    [pow]; the products below are that value whenever they are exact, as
    they are for the offsets [0.5] and [-0.5] of the inputs evaluated in
    this file. *)
Definition np_power2 (x : float) : float := x * x.
Definition np_power3 (x : float) : float := x * x * x.

Definition np_zeros1 (n : Z) : fvec := replicate (Z.to_nat n) 0.

Definition np_zeros (rows cols : Z) : py fmatrix :=
  if bool_decide (rows < 0 ∨ cols < 0)%Z then raise ValueError
  else mret (replicate (Z.to_nat rows) (np_zeros1 cols)).

Definition mask_set (mask : Z → Z → bool) (val : float) (M : fmatrix)
  : fmatrix :=
  imap (λ i row, imap (λ j x,
    if mask (Z.of_nat i) (Z.of_nat j) then val else x) row) M.

Definition np_fill_diagonal_wrap (cols : Z) (val : float) (M : fmatrix)
  : fmatrix :=
  mask_set (λ i j, bool_decide (((i * cols + j) `mod` (cols + 1))%Z = 0%Z))
    val M.

Definition np_roll1_axis1 (M : fmatrix) : fmatrix := np_roll1 <$> M.

Definition np_delete0 (M : fmatrix) : py fmatrix :=
  match M with
  | [] => raise IndexError
  | _ :: M' => mret M'
  end.

Definition np_vstack_zeros (cols : Z) (M : fmatrix) : fmatrix :=
  M ++ [np_zeros1 cols].

Definition vscale (l : fvec) (s : float) : fvec := (λ x, x * s) <$> l.
Definition vdiv (l : fvec) (s : float) : fvec := (λ x, x / s) <$> l.
Definition mscale (M : fmatrix) (s : float) : fmatrix :=
  (λ row, vscale row s) <$> M.
Definition mdiv (M : fmatrix) (s : float) : fmatrix :=
  (λ row, vdiv row s) <$> M.

Definition mset (M : fmatrix) (row col : Z) (val : float) : fmatrix :=
  alter (λ r, <[Z.to_nat col := val]> r) (Z.to_nat row) M.

Definition vadd (u w : fvec) : fvec := zip_with PrimFloat.add u w.

(** [spline_construction] *)

Section construction.
Variables (rows cols : Z) (dx : float).

Definition build_C : py fmatrix :=
  C ← np_zeros rows cols;
  let C := np_fill_diagonal_wrap cols 1 C in
  mret (np_roll1_axis1 C).

Definition build_D : py fmatrix :=
  D ← np_zeros rows cols;
  let D := mask_set (λ i j, bool_decide (i = j)) (- 1) D in
  let D := mask_set (λ i j, bool_decide (i = j - 1)%Z) 1 D in
  mret (mdiv D dx).

Definition build_B : py fmatrix :=
  B ← np_zeros rows cols;
  let B := mask_set (λ i j, bool_decide (i = j)) (- 0.5) B in
  let B := mask_set (λ i j, bool_decide (i < j)%Z) (- 1) B in
  let B := mask_set (λ i j, bool_decide (j = cols - 1)%Z) (- 0.5) B in
  B ← np_delete0 B;
  let B := np_vstack_zeros cols B in
  mret (mscale B dx).

Definition A_inner (row : Z) (A : fmatrix) (col : Z) : fmatrix :=
  let A := if bool_decide (row = col) then mset A row col (1 / 6) else A in
  if bool_decide (col > row)%Z then mset A row col (of_int (col - row))
  else A.

Definition A_outer (st : fmatrix * float) (row : Z) : fmatrix * float :=
  let '(A, tmp) := st in
  let A := mset A row (cols - 1) tmp in
  let tmp := tmp + 0.5 in
  (foldl (A_inner row) A (py_range_down (cols - 2)), tmp).

Definition build_A : py fmatrix :=
  A ← np_zeros rows cols;
  A ← (if bool_decide (0 < rows ∧ cols = 0)%Z then raise IndexError
       else mret (foldl A_outer (A, 1 / 3) (py_range_down (rows - 1))).1);
  A ← np_delete0 A;
  let A := np_vstack_zeros cols A in
  mret (mscale (mscale A dx) dx).

Definition spline_construction
  : py (fmatrix * fmatrix * fmatrix * fmatrix) :=
  C ← build_C;
  D ← build_D;
  B ← build_B;
  A ← build_A;
  mret (C, D, B, A).
End construction.

(** [spline_eval012]; the arguments are Python floats. *)

Definition eval_index (r Rmin dx : float) : py Z :=
  if r =? Rmin then mret 1%Z
  else if dx =? 0 then raise ZeroDivisionError
  else int_ceil ((r - Rmin) / dx).

Definition spline_eval012 (a b c d : fvec) (r Rcut Rmin dx : float)
    (x : fvec) : py (float * float * float) :=
  index ← eval_index r Rmin dx;
  if bool_decide (1 ≤ index)%Z then
    xi ← py_index x index;
    let dr := r - xi in
    ai ← py_index a (index - 1);
    bi ← py_index b (index - 1);
    ci ← py_index c (index - 1);
    di ← py_index d (index - 1);
    let f0 := ai + dr * (bi + dr * (0.5 * ci + di * dr / 3)) in
    let f1 := bi + dr * (ci + 0.5 * di * dr) in
    let f2 := ci + di * dr in
    mret (f0, f1, f2)
  else raise ValueError.

(** [spline_energy_model]; the distances are [numpy.float64] scalars. *)

Definition model_index (r Rmin dx : float) : py Z :=
  int_ceil (np_around5 ((r - Rmin) / dx)).

Inductive ndval : Type :=
  | Scalar (q : float)
  | Array (w : fvec).

Definition nd_add (u : ndval) (w : fvec) : ndval :=
  match u with
  | Scalar q => Array ((λ y, q + y) <$> w)
  | Array u => Array (vadd u w)
  end.

Definition assign_row (cols : Z) (u : ndval) : fvec :=
  match u with
  | Scalar q => replicate (Z.to_nat cols) q
  | Array w => w
  end.

Section energy_model.
Variables (Rcut Rmin : float) (df : fmatrix) (cols : Z) (dx : float)
          (size : Z) (x : fvec).

Definition pair_term (CDBA : fmatrix * fmatrix * fmatrix * fmatrix)
    (u : ndval) (r : float) : py ndval :=
  let '(C, D, B, A) := CDBA in
  index ← model_index r Rmin dx;
  xi ← py_index x index;
  let delta := r - xi in
  a ← py_index A (index - 1);
  Bi ← py_index B (index - 1);
  let b := vscale Bi delta in
  Di ← py_index D (index - 1);
  let d := vdiv (vscale Di (np_power3 delta)) 6 in
  Ci ← py_index C (index - 1);
  let c_d := vdiv (vscale Ci (np_power2 delta)) 2 in
  mret (nd_add (nd_add (nd_add (nd_add u a) b) c_d) d).

Definition qualifying (row : fvec) : fvec :=
  filter (λ i, Is_true ((i <=? Rcut) && (Rmin <=? i))) row.

Definition accumulate (CDBA : fmatrix * fmatrix * fmatrix * fmatrix)
    (distances : fvec) : py ndval :=
  foldM (pair_term CDBA) (Scalar 0) distances.

Definition config_row (CDBA : fmatrix * fmatrix * fmatrix * fmatrix)
    (v : fmatrix) (config : Z) : py fmatrix :=
  row ← py_index df config;
  let distances := qualifying row in
  u ← accumulate CDBA distances;
  mret (<[Z.to_nat config := assign_row cols u]> v).

Definition spline_energy_model : py fmatrix :=
  CDBA ← spline_construction (cols - 1) cols dx;
  v ← np_zeros size cols;
  foldM (config_row CDBA) v (py_range size).
End energy_model.

(** [np.linspace(start, stop, num)]; NumPy multiplies by the step, or,
    when the step underflows to zero, divides first. *)
Definition np_linspace (start stop : float) (num : Z) : py fvec :=
  if bool_decide (num < 0)%Z then raise ValueError
  else
    let div := (num - 1)%Z in
    let delta := stop - start in
    let y := of_int <$> py_range num in
    let y := if bool_decide (0 < div)%Z then
               let step := delta / of_int div in
               if step =? 0 then (λ i, i / of_int div * delta) <$> y
               else (λ i, i * step) <$> y
             else (λ i, i * delta) <$> y in
    let y := (λ i, i + start) <$> y in
    mret (if bool_decide (1 < num)%Z then <[Z.to_nat (num - 1) := stop]> y
          else y).
End Binary64.

(** ** Vocabulary of the statements *)

#[global] Instance string_eq_dec : EqDecision string := String.string_dec.

(** Two objects compare equal when all their attributes do. *)
#[global] Instance Twobody_eq_dec : EqDecision Twobody.t.
Proof. solve_decision. Defined.

(** [M.shape == (rows, cols)] *)
Definition shape (rows cols : nat) (M : matrix) : Prop :=
  length M = rows ∧ Forall (λ r, length r = cols) M.

(** [M[i][j]] for indices in range. *)
Definition entry (M : matrix) (i j : nat) : option Qc :=
  M !! i ≫= λ row, row !! j.

(** [np.sum(row)] *)
Definition vsum (l : vec) : Qc := foldr Qcplus 0 l.

(** The four terms [(a, b, c_d, d)] a distance [r] adds to [u]. *)
Definition pair_terms (Rmin dx : Qc) (x : vec)
    (CDBA : matrix * matrix * matrix * matrix) (r : Qc)
  : py (vec * vec * vec * vec) :=
  let '(C, D, B, A) := CDBA in
  index ← model_index r Rmin dx;
  xi ← py_index x index;
  let delta := r - xi in
  a ← py_index A (index - 1);
  Bi ← py_index B (index - 1);
  Di ← py_index D (index - 1);
  Ci ← py_index C (index - 1);
  mret (a, vscale Bi delta, vdiv (vscale Ci (delta ^ 2)) (qc 2 1),
        vdiv (vscale Di (delta ^ 3)) (qc 6 1)).

Definition add_terms (u : ndval) (t : vec * vec * vec * vec) : ndval :=
  let '(a, b, c_d, d) := t in nd_add (nd_add (nd_add (nd_add u a) b) c_d) d.

(** The distances of a row that are not exactly [Rmin] or [Rcut]. *)
Definition remove_boundary (Rcut Rmin : Qc) (row : vec) : vec :=
  filter (λ r, r ≠ Rmin ∧ r ≠ Rcut) row.

(** Closed forms of the entries of [B] and [A] (rows and columns counted
    from 0). *)
Definition B_entry (rows cols : nat) (dx : Qc) (i j : nat) : Qc :=
  if bool_decide (S i = rows) then 0
  else (if bool_decide (S j = cols) then - qc 1 2
        else if bool_decide (S i < j)%nat then - 1
        else if bool_decide (S i = j) then - qc 1 2
        else 0) * dx.

Definition A_entry (rows cols : nat) (dx : Qc) (i j : nat) : Qc :=
  if bool_decide (S i = rows) then 0
  else (if bool_decide (S j = cols)
        then qc 1 3 + Qc_of_Z (Z.of_nat rows - 2 - Z.of_nat i) * qc 1 2
        else if bool_decide (S i = j) then qc 1 6
        else if bool_decide (S i < j)%nat
             then Qc_of_Z (Z.of_nat j - Z.of_nat i - 1)
        else 0) * dx * dx.

(** What the inner loop of [A] does to the entry of column [j] in row
    [row]. *)
Definition A_inner_value (row : Z) (j : nat) (old : Qc) : Qc :=
  if bool_decide (row = Z.of_nat j) then qc 1 6
  else if bool_decide (Z.of_nat j > row)%Z then Qc_of_Z (Z.of_nat j - row)
  else old.

(** The sum [a + b + c_d + d] of the four terms of a distance. *)
Definition terms_sum (t : vec * vec * vec * vec) : vec :=
  vadd (vadd (vadd t.1.1.1 t.1.1.2) t.1.2) t.2.

(** The row a finished accumulation stores in [v]. *)
Definition stored_row (cols : Z) (m : py ndval) : py vec :=
  u ← m; mret (assign_row cols u).

(** * Properties *)

(** ** The error monad and Python indexing *)

Lemma bind_inr {A B} (f : A → py B) (m : py A) (a : A) :
  m = inr a → (m ≫= f) = f a.
Proof. by intros ->. Qed.

Lemma bind_inl {A B} (f : A → py B) (m : py A) (e : pyerr) :
  m = inl e → (m ≫= f) = inl e.
Proof. by intros ->. Qed.

Lemma bind_succeeds {A B} (f : A → py B) (m : py A) (b : B) :
  (m ≫= f) = inr b → ∃ a, m = inr a ∧ f a = inr b.
Proof. destruct m as [e|a]; [done|]. intros ?. by exists a. Qed.

Lemma py_index_nonneg {A} (l : list A) (i : Z) (a : A) :
  (0 ≤ i)%Z → l !! Z.to_nat i = Some a → py_index l i = inr a.
Proof.
  intros Hi Hl. unfold py_index.
  apply lookup_lt_Some in Hl as Hlt.
  rewrite (bool_decide_eq_false_2 (i < 0)%Z) by lia.
  rewrite bool_decide_eq_true_2 by lia.
  by rewrite Hl.
Qed.

Lemma py_index_neg {A} (l : list A) (i : Z) (a : A) :
  (i < 0)%Z → (0 ≤ Z.of_nat (length l) + i)%Z →
  l !! Z.to_nat (Z.of_nat (length l) + i) = Some a → py_index l i = inr a.
Proof.
  intros Hi Hn Hl. unfold py_index.
  rewrite (bool_decide_eq_true_2 (i < 0)%Z) by lia.
  rewrite bool_decide_eq_true_2 by lia.
  by rewrite Hl.
Qed.

Lemma py_index_out {A} (l : list A) (i : Z) :
  (i < - Z.of_nat (length l) ∨ Z.of_nat (length l) ≤ i)%Z →
  py_index l i = inl IndexError.
Proof.
  intros Hi. unfold py_index.
  destruct (bool_decide (i < 0)%Z) eqn:Hneg.
  - apply bool_decide_eq_true_1 in Hneg.
    rewrite bool_decide_eq_false_2 by lia. done.
  - apply bool_decide_eq_false_1 in Hneg.
    rewrite bool_decide_eq_false_2 by lia. done.
Qed.

Lemma py_index_in {A} (l : list A) (i : Z) :
  (- Z.of_nat (length l) ≤ i < Z.of_nat (length l))%Z →
  ∃ a, py_index l i = inr a ∧ a ∈ l.
Proof.
  intros Hi. destruct (decide (i < 0)%Z) as [Hneg|Hpos].
  - destruct (lookup_lt_is_Some_2 l (Z.to_nat (Z.of_nat (length l) + i)))
      as [a Ha]; [lia|].
    exists a. split; [apply py_index_neg; (lia || done)|].
    by eapply list_elem_of_lookup_2.
  - destruct (lookup_lt_is_Some_2 l (Z.to_nat i)) as [a Ha]; [lia|].
    exists a. split; [apply py_index_nonneg; (lia || done)|].
    by eapply list_elem_of_lookup_2.
Qed.

Lemma py_index_inv {A} (l : list A) (i : Z) (a : A) :
  py_index l i = inr a →
  (- Z.of_nat (length l) ≤ i < Z.of_nat (length l))%Z ∧ a ∈ l.
Proof.
  unfold py_index. intros H.
  case_bool_decide as Hk; [|done].
  destruct (l !! _) as [a'|] eqn:Hl; [|done].
  injection H as <-. split.
  - case_bool_decide; lia.
  - by eapply list_elem_of_lookup_2.
Qed.

Lemma py_index_error {A} (l : list A) (i : Z) (e : pyerr) :
  py_index l i = inl e → e = IndexError.
Proof.
  unfold py_index. case_bool_decide; [|by intros [= <-]].
  destruct (l !! _); [done|by intros [= <-]].
Qed.

(** The last element, reached as [l[-1]] and as [l[len(l) - 1]]. *)
Lemma py_index_last {A} (l : list A) (a : A) (i : Z) :
  (i = -1 ∨ i = Z.of_nat (length l))%Z → py_index (l ++ [a]) i = inr a.
Proof.
  intros Hi.
  assert (Hl : (l ++ [a]) !! length l = Some a).
  { rewrite lookup_app_r by lia. by rewrite Nat.sub_diag. }
  destruct Hi as [-> | ->].
  - apply py_index_neg; rewrite ?length_app; simpl; [lia|lia|].
    replace (Z.to_nat _) with (length l) by lia. done.
  - apply py_index_nonneg; [lia|]. by rewrite Nat2Z.id.
Qed.

(** ** Shapes and entries of arrays *)

Lemma shape_row rows cols M i row :
  shape rows cols M → M !! i = Some row → length row = cols.
Proof. intros [_ HM] Hi. by eapply (proj1 (Forall_lookup _ _) HM). Qed.

Lemma np_zeros_ok rows cols :
  (0 ≤ rows)%Z → (0 ≤ cols)%Z →
  np_zeros rows cols = inr (replicate (Z.to_nat rows) (np_zeros1 cols)).
Proof. intros. unfold np_zeros. by rewrite bool_decide_eq_false_2 by lia. Qed.

Lemma np_zeros_neg rows cols :
  (rows < 0 ∨ cols < 0)%Z → np_zeros rows cols = inl ValueError.
Proof. intros. unfold np_zeros. by rewrite bool_decide_eq_true_2. Qed.

Lemma shape_zeros rows cols :
  shape rows cols (replicate rows (np_zeros1 (Z.of_nat cols))).
Proof.
  split; [apply length_replicate|].
  apply Forall_replicate. unfold np_zeros1.
  by rewrite length_replicate, Nat2Z.id.
Qed.

Lemma entry_zeros rows cols i j :
  (i < rows)%nat → (j < cols)%nat →
  entry (replicate rows (np_zeros1 (Z.of_nat cols))) i j = Some 0.
Proof.
  intros Hi Hj. unfold entry, np_zeros1.
  rewrite lookup_replicate_2 by done. simpl.
  rewrite Nat2Z.id. by apply lookup_replicate_2.
Qed.

Lemma shape_mask_set rows cols mask val M :
  shape rows cols M → shape rows cols (mask_set mask val M).
Proof.
  intros [Hl HM]. unfold mask_set. split; [by rewrite length_imap|].
  apply Forall_lookup. intros i row Hi.
  apply list_lookup_imap_Some in Hi as (row' & Hrow' & ->).
  rewrite length_imap. by eapply (proj1 (Forall_lookup _ _) HM).
Qed.

Lemma entry_mask_set mask val M i j :
  entry (mask_set mask val M) i j =
  (λ x, if mask (Z.of_nat i) (Z.of_nat j) then val else x) <$> entry M i j.
Proof.
  unfold entry, mask_set. rewrite list_lookup_imap.
  destruct (M !! i) as [row|]; simpl; [|done].
  by rewrite list_lookup_imap.
Qed.

Lemma length_np_roll1 {A} (l : list A) : length (np_roll1 l) = length l.
Proof.
  unfold np_roll1. rewrite length_app, length_drop, length_take. lia.
Qed.

Lemma lookup_np_roll1_0 {A} (l : list A) :
  np_roll1 l !! 0%nat = l !! (length l - 1)%nat.
Proof.
  unfold np_roll1. destruct l as [|a l]; [done|].
  rewrite lookup_app_l.
  - rewrite lookup_drop. f_equal. lia.
  - rewrite length_drop. simpl. lia.
Qed.

Lemma lookup_np_roll1_S {A} (l : list A) (j : nat) :
  (S j < length l)%nat → np_roll1 l !! S j = l !! j.
Proof.
  intros Hj. unfold np_roll1.
  rewrite lookup_app_r; rewrite length_drop; [|lia].
  rewrite lookup_take_lt by lia. f_equal. lia.
Qed.

Lemma shape_np_roll1 rows cols M :
  shape rows cols M → shape rows cols (np_roll1_axis1 M).
Proof.
  intros [Hl HM]. unfold np_roll1_axis1. split; [by rewrite length_fmap|].
  apply Forall_fmap. eapply Forall_impl; [exact HM|].
  intros row Hrow. simpl. by rewrite length_np_roll1.
Qed.

Lemma shape_mscale rows cols M s :
  shape rows cols M → shape rows cols (mscale M s).
Proof.
  intros [Hl HM]. unfold mscale. split; [by rewrite length_fmap|].
  apply Forall_fmap. eapply Forall_impl; [exact HM|].
  intros row Hrow. simpl. unfold vscale. by rewrite length_fmap.
Qed.

Lemma shape_mdiv rows cols M s :
  shape rows cols M → shape rows cols (mdiv M s).
Proof.
  intros [Hl HM]. unfold mdiv. split; [by rewrite length_fmap|].
  apply Forall_fmap. eapply Forall_impl; [exact HM|].
  intros row Hrow. simpl. unfold vdiv. by rewrite length_fmap.
Qed.

Lemma shape_mset rows cols M row col val :
  shape rows cols M → shape rows cols (mset M row col val).
Proof.
  intros [Hl HM]. unfold mset. split; [by rewrite length_alter|].
  apply Forall_alter; [done|]. intros r _ Hr. by rewrite length_insert.
Qed.

Lemma shape_delete_vstack rows cols M :
  shape (S rows) cols M →
  ∃ M', np_delete0 M = inr M' ∧
        shape (S rows) cols (np_vstack_zeros (Z.of_nat cols) M').
Proof.
  intros [Hl HM]. destruct M as [|r M]; [done|].
  exists M. split; [done|]. apply Forall_cons in HM as [_ HM].
  unfold np_vstack_zeros. split.
  - rewrite length_app. simpl in *. lia.
  - apply Forall_app. split; [done|]. apply Forall_singleton.
    unfold np_zeros1. by rewrite length_replicate, Nat2Z.id.
Qed.

Lemma vscale_zeros n s : vscale (np_zeros1 n) s = np_zeros1 n.
Proof.
  unfold vscale, np_zeros1. rewrite fmap_replicate.
  by rewrite Qcmult_0_l.
Qed.

Lemma mscale_vstack_zeros cols M s :
  mscale (M ++ [np_zeros1 cols]) s = mscale M s ++ [np_zeros1 cols].
Proof.
  unfold mscale. rewrite fmap_app. simpl.
  by rewrite vscale_zeros.
Qed.

(** ** The basis matrices *)

Lemma shape_A_inner rows cols row A col :
  shape rows cols A → shape rows cols (A_inner row A col).
Proof.
  intros HA. unfold A_inner.
  repeat case_bool_decide; repeat apply shape_mset; done.
Qed.

Lemma shape_foldl_A_inner rows cols row l A :
  shape rows cols A → shape rows cols (foldl (A_inner row) A l).
Proof.
  revert A. induction l as [|col l IH]; intros A HA; [done|].
  simpl. apply IH. by apply shape_A_inner.
Qed.

Lemma shape_foldl_A_outer rows cols c l st :
  shape rows cols st.1 → shape rows cols (foldl (A_outer c) st l).1.
Proof.
  revert st. induction l as [|row l IH]; intros [A tmp] HA; [done|].
  simpl. apply IH. simpl. apply shape_foldl_A_inner. by apply shape_mset.
Qed.

Lemma build_C_ok n m :
  build_C (Z.of_nat n) (Z.of_nat m) =
  inr (np_roll1_axis1 (np_fill_diagonal_wrap (Z.of_nat m) 1
         (replicate n (np_zeros1 (Z.of_nat m))))).
Proof.
  unfold build_C. rewrite np_zeros_ok by lia. simpl. by rewrite Nat2Z.id.
Qed.

Lemma build_D_ok n m dx :
  build_D (Z.of_nat n) (Z.of_nat m) dx =
  inr (mdiv (mask_set (λ i j, bool_decide (i = j - 1)%Z) 1
            (mask_set (λ i j, bool_decide (i = j)) (- 1)
               (replicate n (np_zeros1 (Z.of_nat m))))) dx).
Proof.
  unfold build_D. rewrite np_zeros_ok by lia. simpl. by rewrite Nat2Z.id.
Qed.

Lemma build_B_ok n m dx :
  ∃ B', build_B (Z.of_nat (S n)) (Z.of_nat m) dx =
          inr (B' ++ [np_zeros1 (Z.of_nat m)]) ∧ shape n m B'.
Proof.
  unfold build_B. rewrite np_zeros_ok by lia. simpl py_bind. rewrite Nat2Z.id.
  cbn [mbind py_bind].
  set (B0 := mask_set _ _ (mask_set _ _ (mask_set _ _ _))).
  assert (HB0 : shape (S n) m B0).
  { unfold B0. do 3 apply shape_mask_set. apply shape_zeros. }
  destruct B0 as [|r B0]; [by destruct HB0|].
  exists (mscale B0 dx). cbn. unfold np_vstack_zeros.
  rewrite mscale_vstack_zeros. split; [done|].
  apply shape_mscale. destruct HB0 as [Hl HB0].
  apply Forall_cons in HB0 as [_ HB0]. split; [simpl in Hl; lia|done].
Qed.

Lemma build_A_ok n m dx :
  ∃ A', build_A (Z.of_nat (S n)) (Z.of_nat (S m)) dx =
          inr (A' ++ [np_zeros1 (Z.of_nat (S m))]) ∧ shape n (S m) A'.
Proof.
  unfold build_A. rewrite np_zeros_ok by lia. cbn [mbind py_bind].
  rewrite bool_decide_eq_false_2 by lia. cbn [mbind py_bind mret py_ret].
  rewrite Nat2Z.id.
  set (A0 := (foldl _ _ _).1).
  assert (HA0 : shape (S n) (S m) A0).
  { unfold A0. apply shape_foldl_A_outer. simpl. apply shape_zeros. }
  destruct A0 as [|r A0]; [by destruct HA0|].
  exists (mscale (mscale A0 dx) dx). cbn. unfold np_vstack_zeros.
  rewrite !mscale_vstack_zeros. split; [done|].
  do 2 apply shape_mscale. destruct HA0 as [Hl HA0].
  apply Forall_cons in HA0 as [_ HA0]. split; [simpl in Hl; lia|done].
Qed.

(** On a grid with at least one segment and one column the construction
    succeeds; [A] and [B] end with the appended row of zeros. *)
Lemma spline_construction_ok n m dx :
  ∃ C D B' A',
    spline_construction (Z.of_nat (S n)) (Z.of_nat (S m)) dx =
      inr (C, D, B' ++ [np_zeros1 (Z.of_nat (S m))],
                 A' ++ [np_zeros1 (Z.of_nat (S m))]) ∧
    build_C (Z.of_nat (S n)) (Z.of_nat (S m)) = inr C ∧
    build_D (Z.of_nat (S n)) (Z.of_nat (S m)) dx = inr D ∧
    shape (S n) (S m) C ∧ shape (S n) (S m) D ∧
    shape n (S m) B' ∧ shape n (S m) A'.
Proof.
  destruct (build_B_ok n (S m) dx) as (B' & HB & HsB).
  destruct (build_A_ok n m dx) as (A' & HA & HsA).
  eexists _, _, B', A'. unfold spline_construction.
  rewrite build_C_ok, build_D_ok, HB, HA. cbn [mbind py_bind mret py_ret].
  split_and!; try done.
  - apply shape_np_roll1, shape_mask_set, shape_zeros.
  - apply shape_mdiv. do 2 apply shape_mask_set. apply shape_zeros.
Qed.

Lemma entry_fmap (f : Qc → Qc) (M : matrix) i j :
  entry ((λ row : vec, f <$> row) <$> M) i j = f <$> entry M i j.
Proof.
  unfold entry. rewrite list_lookup_fmap.
  destruct (M !! i) as [row|]; simpl; [|done]. by rewrite list_lookup_fmap.
Qed.

Lemma entry_mdiv M s i j : entry (mdiv M s) i j = (λ x, x / s) <$> entry M i j.
Proof. apply (entry_fmap (λ x, x / s)). Qed.

(** Flat positions hit by [fill_diagonal] with [wrap=True] when the array
    has one more column than rows: exactly the main diagonal. *)
Lemma fill_diagonal_positions (i j c : Z) :
  (0 ≤ i < c)%Z → (0 ≤ j < c)%Z →
  ((i * c + j) `mod` (c + 1) = 0)%Z ↔ i = j.
Proof.
  intros Hi Hj. split.
  - intros Hmod. apply Z.mod_divide in Hmod; [|lia].
    destruct Hmod as [k Hk].
    assert (Hk' : (j - i = (k - i) * (c + 1))%Z) by lia.
    assert ((k - i = 0)%Z) by nia. lia.
  - intros ->. apply Z.mod_divide; [lia|]. exists j. lia.
Qed.

Lemma entry_C n i j :
  (i < n)%nat → (j < S n)%nat →
  entry (np_roll1_axis1 (np_fill_diagonal_wrap (Z.of_nat (S n)) 1
           (replicate n (np_zeros1 (Z.of_nat (S n)))))) i j =
  Some (if bool_decide (j = S i) then 1 else 0).
Proof.
  intros Hi Hj.
  set (Z0 := replicate n (np_zeros1 (Z.of_nat (S n)))).
  set (F := np_fill_diagonal_wrap _ _ _).
  assert (HF : ∀ j', (j' < S n)%nat →
            entry F i j' = Some (if bool_decide (j' = i) then 1 else 0)).
  { intros j' Hj'. unfold F, np_fill_diagonal_wrap.
    rewrite entry_mask_set. unfold Z0. rewrite entry_zeros by lia. simpl.
    f_equal. repeat case_bool_decide; try done.
    - exfalso. apply fill_diagonal_positions in H; lia.
    - exfalso. apply H. apply fill_diagonal_positions; lia. }
  assert (HsF : shape n (S n) F).
  { apply shape_mask_set, shape_zeros. }
  unfold entry, np_roll1_axis1. rewrite list_lookup_fmap.
  destruct (F !! i) as [row|] eqn:Hrow.
  2:{ apply lookup_ge_None in Hrow. destruct HsF. lia. }
  pose proof (shape_row _ _ _ _ _ HsF Hrow) as Hlen.
  simpl. destruct j as [|j].
  - rewrite lookup_np_roll1_0, Hlen.
    replace (S n - 1)%nat with n by lia.
    specialize (HF n ltac:(lia)). unfold entry in HF. rewrite Hrow in HF.
    simpl in HF. rewrite HF.
    rewrite bool_decide_eq_false_2 by lia.
    by rewrite bool_decide_eq_false_2 by lia.
  - rewrite lookup_np_roll1_S by lia.
    specialize (HF j ltac:(lia)). unfold entry in HF. rewrite Hrow in HF.
    simpl in HF. rewrite HF. f_equal.
    repeat case_bool_decide; (done || lia).
Qed.

Lemma entry_D n m dx i j :
  (i < n)%nat → (j < m)%nat →
  entry (mdiv (mask_set (λ i j, bool_decide (i = j - 1)%Z) 1
            (mask_set (λ i j, bool_decide (i = j)) (- 1)
               (replicate n (np_zeros1 (Z.of_nat m))))) dx) i j =
  Some ((if bool_decide (j = S i) then 1
         else if bool_decide (j = i) then - 1 else 0) / dx).
Proof.
  intros Hi Hj. rewrite entry_mdiv, !entry_mask_set, entry_zeros by done.
  simpl. do 2 f_equal. repeat case_bool_decide; (done || lia).
Qed.

Lemma vsum_app l1 l2 : vsum (l1 ++ l2) = vsum l1 + vsum l2.
Proof.
  unfold vsum. induction l1 as [|a l1 IH]; simpl.
  - by rewrite Qcplus_0_l.
  - rewrite IH. ring.
Qed.

Lemma vsum_replicate_0 n : vsum (replicate n 0) = 0.
Proof. induction n as [|n IH]; [done|]. simpl. rewrite IH. ring. Qed.

Lemma vsum_vdiv l s : vsum (vdiv l s) = vsum l / s.
Proof.
  unfold vdiv, vsum. induction l as [|a l IH].
  - simpl. unfold Qcdiv. ring.
  - rewrite fmap_cons. cbn [foldr]. rewrite IH. unfold Qcdiv. ring.
Qed.

(** A row with [-1] at [i], [1] at [i + 1] and zeros elsewhere. *)
Lemma vsum_difference_row (row : vec) (i : nat) :
  (S i < length row)%nat →
  (∀ j, (j < length row)%nat →
     row !! j = Some (if bool_decide (j = S i) then 1
                      else if bool_decide (j = i) then - 1 else 0)) →
  vsum row = 0.
Proof.
  intros Hlen Hrow.
  assert (row = replicate i 0 ++ [- 1; 1] ++
                replicate (length row - i - 2) 0) as ->.
  { apply list_eq. intros j.
    destruct (decide (j < length row)%nat) as [Hj|Hj].
    - rewrite Hrow by done.
      destruct (decide (j < i)%nat).
      { rewrite lookup_app_l by (rewrite length_replicate; lia).
        rewrite lookup_replicate_2 by lia.
        repeat case_bool_decide; (done || lia). }
      rewrite lookup_app_r; rewrite length_replicate; [|lia].
      destruct (j - i)%nat as [|[|k]] eqn:Hk; simpl.
      + repeat case_bool_decide; (done || lia).
      + repeat case_bool_decide; (done || lia).
      + rewrite lookup_replicate_2 by lia.
        repeat case_bool_decide; (done || lia).
    - rewrite lookup_ge_None_2 by lia. symmetry. apply lookup_ge_None_2.
      rewrite !length_app, !length_replicate. simpl. lia. }
  rewrite !vsum_app, !vsum_replicate_0. simpl. ring.
Qed.

Lemma D_row_sums n dx :
  Forall (λ row, vsum row = 0)
    (mdiv (mask_set (λ i j, bool_decide (i = j - 1)%Z) 1
            (mask_set (λ i j, bool_decide (i = j)) (- 1)
               (replicate n (np_zeros1 (Z.of_nat (S n)))))) dx).
Proof.
  set (M := mask_set _ _ _).
  assert (HsM : shape n (S n) M).
  { do 2 apply shape_mask_set. apply shape_zeros. }
  apply Forall_lookup. intros i row Hi.
  unfold mdiv in Hi. apply list_lookup_fmap_Some_1 in Hi as (r & -> & Hr).
  pose proof (shape_row _ _ _ _ _ HsM Hr) as Hlen.
  assert (Hin : (i < n)%nat).
  { apply lookup_lt_Some in Hr. destruct HsM. lia. }
  rewrite vsum_vdiv.
  rewrite (vsum_difference_row r i); [unfold Qcdiv; ring|lia|].
  intros j Hj.
  assert (He : entry M i j = Some (if bool_decide (j = S i) then 1
                      else if bool_decide (j = i) then - 1 else 0)).
  { unfold M. rewrite !entry_mask_set, entry_zeros by lia. simpl. f_equal.
    repeat case_bool_decide; (done || lia). }
  unfold entry in He. by rewrite Hr in He.
Qed.

Lemma shape_snoc_zeros n m M :
  shape n m M → shape (S n) m (M ++ [np_zeros1 (Z.of_nat m)]).
Proof.
  intros [Hl HM]. split.
  - rewrite length_app. simpl. lia.
  - apply Forall_app. split; [done|]. apply Forall_singleton.
    unfold np_zeros1. by rewrite length_replicate, Nat2Z.id.
Qed.

(** C9.  For [rows >= 1], [cols = rows + 1] and [dx > 0],
    [spline_construction] returns four matrices [C, D, B, A] of shape
    [(rows, cols)]; the entry of [C] at [(i, j)] is [1] when [j = i + 1]
    and [0] otherwise, so its nonzero entries are exactly the ones at
    [(j - 1, j)] for [j = 1 .. cols - 1]; the rows of [D] are [-1] on the
    diagonal and [1] on the first super-diagonal, divided by [dx], and
    each of them sums to [0]. *)
Theorem spline_construction_shapes_C_D (rows cols : Z) (dx : Qc) :
  (1 ≤ rows)%Z → cols = (rows + 1)%Z → 0 < dx →
  ∃ C D B A,
    spline_construction rows cols dx = inr (C, D, B, A) ∧
    shape (Z.to_nat rows) (Z.to_nat cols) C ∧
    shape (Z.to_nat rows) (Z.to_nat cols) D ∧
    shape (Z.to_nat rows) (Z.to_nat cols) B ∧
    shape (Z.to_nat rows) (Z.to_nat cols) A ∧
    (∀ i j, (i < Z.to_nat rows)%nat → (j < Z.to_nat cols)%nat →
       entry C i j = Some (if bool_decide (j = S i) then 1 else 0)) ∧
    (∀ i j, (i < Z.to_nat rows)%nat → (j < Z.to_nat cols)%nat →
       entry D i j = Some ((if bool_decide (j = S i) then 1
                            else if bool_decide (j = i) then - 1 else 0) / dx)) ∧
    Forall (λ row, vsum row = 0) D.
Proof.
  intros Hrows -> Hdx.
  destruct (Z.to_nat rows) as [|n] eqn:Hn; [lia|].
  assert (rows = Z.of_nat (S n)) as -> by lia.
  replace (Z.of_nat (S n) + 1)%Z with (Z.of_nat (S (S n))) by lia.
  rewrite Nat2Z.id.
  destruct (spline_construction_ok n (S n) dx)
    as (C & D & B' & A' & Hok & HC & HD & HsC & HsD & HsB & HsA).
  exists C, D, (B' ++ [np_zeros1 (Z.of_nat (S (S n)))]),
    (A' ++ [np_zeros1 (Z.of_nat (S (S n)))]).
  rewrite build_C_ok in HC. rewrite build_D_ok in HD.
  assert (HC' := f_equal (λ m, match m with inr M => M | inl _ => [] end) HC).
  assert (HD' := f_equal (λ m, match m with inr M => M | inl _ => [] end) HD).
  cbv beta iota in HC', HD'. subst C D.
  split_and!; try done.
  - by apply shape_snoc_zeros.
  - by apply shape_snoc_zeros.
  - intros i j Hi Hj. by apply entry_C.
  - intros i j Hi Hj. by apply entry_D.
  - apply D_row_sums.
Qed.

Lemma spline_construction_shapes_C_D_witness :
  ∃ C D B A,
    spline_construction 4 5 (qc 1 2) = inr (C, D, B, A) ∧
    shape 4 5 C ∧ shape 4 5 D ∧ shape 4 5 B ∧ shape 4 5 A ∧
    (∀ i j, (i < 4)%nat → (j < 5)%nat →
       entry C i j = Some (if bool_decide (j = S i) then 1 else 0)) ∧
    (∀ i j, (i < 4)%nat → (j < 5)%nat →
       entry D i j = Some ((if bool_decide (j = S i) then 1
                            else if bool_decide (j = i) then - 1 else 0)
                           / qc 1 2)) ∧
    Forall (λ row, vsum row = 0) D.
Proof.
  apply (spline_construction_shapes_C_D 4 5 (qc 1 2)); [lia|reflexivity|reflexivity].
Defined.

(** ** Ceilings and quotients *)

Lemma this_Qc_of_Z (n : Z) : this (Qc_of_Z n) = inject_Z n.
Proof. done. Qed.

Lemma Qc_of_Z_0 : Qc_of_Z 0 = 0.
Proof. by apply Qc_is_canon. Qed.

Lemma Qc_of_Z_1 : Qc_of_Z 1 = 1.
Proof. by apply Qc_is_canon. Qed.

Lemma np_ceil_of_Z (n : Z) : np_ceil (Qc_of_Z n) = n.
Proof. unfold np_ceil. rewrite this_Qc_of_Z. apply Qceiling_Z. Qed.

Lemma np_ceil_le (q : Qc) (n : Z) : q ≤ Qc_of_Z n → (np_ceil q ≤ n)%Z.
Proof.
  intros Hq. unfold np_ceil. rewrite <- (Qceiling_Z n).
  apply Qceiling_resp_le. exact Hq.
Qed.

Lemma np_ceil_ge (q : Qc) (n : Z) : Qc_of_Z n ≤ q → (n ≤ np_ceil q)%Z.
Proof.
  intros Hq. unfold np_ceil. rewrite <- (Qceiling_Z n) at 1.
  apply Qceiling_resp_le. exact Hq.
Qed.

Lemma np_ceil_pos (q : Qc) : 0 < q → (1 ≤ np_ceil q)%Z.
Proof.
  intros Hq. unfold np_ceil.
  pose proof (Qle_ceiling q) as Hc.
  assert (H0 : (inject_Z 0 < inject_Z (Qceiling q))%Q).
  { eapply Qlt_le_trans; [exact Hq|exact Hc]. }
  rewrite <- Zlt_Qlt in H0. lia.
Qed.

Lemma Qcdiv_mult_cancel (a s : Qc) : s ≠ 0 → a / s * s = a.
Proof. intros. field. done. Qed.

Lemma Qcdiv_le_iff (a b s : Qc) : 0 < s → a / s ≤ b ↔ a ≤ b * s.
Proof.
  intros Hs. rewrite (Qcmult_le_mono_pos_r (a / s) b s Hs).
  rewrite Qcdiv_mult_cancel; [done|]. intros ->. by apply Qclt_not_eq in Hs.
Qed.

Lemma Qcdiv_ge_iff (a b s : Qc) : 0 < s → b ≤ a / s ↔ b * s ≤ a.
Proof.
  intros Hs. rewrite (Qcmult_le_mono_pos_r b (a / s) s Hs).
  rewrite Qcdiv_mult_cancel; [done|]. intros ->. by apply Qclt_not_eq in Hs.
Qed.


Lemma Qcdiv_gt_iff (a b s : Qc) : 0 < s → b < a / s ↔ b * s < a.
Proof.
  intros Hs. rewrite (Qcmult_lt_mono_pos_r b (a / s) s Hs).
  rewrite Qcdiv_mult_cancel; [done|]. intros ->. by apply Qclt_not_eq in Hs.
Qed.

Lemma Qcminus_lt_0 (a b : Qc) : a - b < 0 ↔ a < b.
Proof.
  rewrite (Qcplus_lt_mono_r (a - b) 0 b).
  replace (a - b + b) with a by ring. by rewrite Qcplus_0_l.
Qed.

Lemma Qcminus_gt_0 (a b : Qc) : 0 < a - b ↔ b < a.
Proof.
  rewrite (Qcplus_lt_mono_r 0 (a - b) b).
  replace (a - b + b) with a by ring. by rewrite Qcplus_0_l.
Qed.

Lemma Qcminus_ge_0 (a b : Qc) : 0 ≤ a - b ↔ b ≤ a.
Proof.
  rewrite (Qcplus_le_mono_r 0 (a - b) b).
  replace (a - b + b) with a by ring. by rewrite Qcplus_0_l.
Qed.

Lemma Qcminus_le_iff (a b c : Qc) : a - b ≤ c ↔ a ≤ b + c.
Proof.
  rewrite (Qcplus_le_mono_r (a - b) c b).
  replace (a - b + b) with a by ring. by rewrite (Qcplus_comm c b).
Qed.

(** ** The evaluator [spline_eval012] *)

Lemma Qclt_neq0 (s : Qc) : 0 < s → s ≠ 0.
Proof. intros Hs ->. by apply Qclt_not_eq in Hs. Qed.

Lemma eval_index_below (r Rmin dx : Qc) :
  0 < dx → r < Rmin →
  ∃ i, eval_index r Rmin dx = inr i ∧ (i < 1)%Z.
Proof.
  intros Hdx Hr. unfold eval_index.
  rewrite bool_decide_eq_false_2.
  2:{ intros ->. by apply Qclt_not_eq in Hr. }
  rewrite bool_decide_eq_false_2 by by apply Qclt_neq0.
  eexists. split; [done|].
  assert (Hq : (r - Rmin) / dx ≤ Qc_of_Z 0).
  { rewrite Qc_of_Z_0. apply Qcdiv_le_iff; [done|]. rewrite Qcmult_0_l.
    apply Qclt_le_weak. by apply Qcminus_lt_0. }
  apply np_ceil_le in Hq. lia.
Qed.

Lemma eval_index_from_Rmin (r Rmin dx : Qc) :
  0 < dx → Rmin ≤ r →
  ∃ i, eval_index r Rmin dx = inr i ∧ (1 ≤ i)%Z ∧
       ∀ N : Z, (1 ≤ N)%Z → r ≤ Rmin + Qc_of_Z N * dx → (i ≤ N)%Z.
Proof.
  intros Hdx Hr. unfold eval_index. case_bool_decide as Heq.
  - exists 1%Z. split_and!; [done|lia|]. intros; lia.
  - rewrite bool_decide_eq_false_2 by by apply Qclt_neq0.
    eexists. split_and!; [done| |].
    + apply np_ceil_pos. apply Qcdiv_gt_iff; [done|]. rewrite Qcmult_0_l.
      apply Qcminus_gt_0. apply Qcle_lt_or_eq in Hr as [Hr | ->]; done.
    + intros N HN HrN. apply np_ceil_le. apply Qcdiv_le_iff; [done|].
      by apply Qcminus_le_iff.
Qed.

Lemma Qc_of_Z_pos (k : Z) : (0 < k)%Z → 0 < Qc_of_Z k.
Proof.
  intros Hk. unfold Qclt. rewrite this_Qc_of_Z.
  change (inject_Z 0 < inject_Z k)%Q. by rewrite <- Zlt_Qlt.
Qed.

Lemma eval_index_knot (Rmin dx : Qc) (k : Z) :
  0 < dx → (1 ≤ k)%Z →
  eval_index (Rmin + Qc_of_Z k * dx) Rmin dx = inr k.
Proof.
  intros Hdx Hk. unfold eval_index.
  assert (Hkdx : 0 < Qc_of_Z k * dx).
  { apply Qcmult_pos_pos; [apply Qc_of_Z_pos; lia|done]. }
  rewrite bool_decide_eq_false_2.
  2:{ intros Heq. apply Qclt_not_eq in Hkdx. apply Hkdx.
      apply (inj (Qcplus Rmin)). by rewrite Qcplus_0_r. }
  rewrite bool_decide_eq_false_2 by by apply Qclt_neq0.
  replace ((Rmin + Qc_of_Z k * dx - Rmin) / dx) with (Qc_of_Z k).
  - by rewrite np_ceil_of_Z.
  - field. by apply Qclt_neq0.
Qed.

(** Inside the branch [index >= 1] the only possible exception is the
    [IndexError] of an array access. *)
Lemma spline_eval012_branch (a b c d : vec) (r Rcut Rmin dx : Qc) (x : vec)
    (i : Z) :
  eval_index r Rmin dx = inr i → (1 ≤ i)%Z →
  spline_eval012 a b c d r Rcut Rmin dx x = inl IndexError ∨
  ∃ xi ai bi ci di,
    py_index x i = inr xi ∧ py_index a (i - 1) = inr ai ∧
    py_index b (i - 1) = inr bi ∧ py_index c (i - 1) = inr ci ∧
    py_index d (i - 1) = inr di ∧
    spline_eval012 a b c d r Rcut Rmin dx x =
      inr (ai + (r - xi) * (bi + (r - xi) * (qc 1 2 * ci + di * (r - xi) / qc 3 1)),
           bi + (r - xi) * (ci + qc 1 2 * di * (r - xi)),
           ci + di * (r - xi)).
Proof.
  intros Hi Hge. unfold spline_eval012. rewrite Hi. cbn [mbind py_bind].
  rewrite bool_decide_eq_true_2 by done.
  destruct (py_index x i) as [e|xi] eqn:Hx;
    [left; by rewrite (py_index_error _ _ _ Hx)|].
  destruct (py_index a (i - 1)) as [e|ai] eqn:Ha;
    [left; by rewrite (py_index_error _ _ _ Ha)|].
  destruct (py_index b (i - 1)) as [e|bi] eqn:Hb;
    [left; by rewrite (py_index_error _ _ _ Hb)|].
  destruct (py_index c (i - 1)) as [e|ci] eqn:Hc;
    [left; by rewrite (py_index_error _ _ _ Hc)|].
  destruct (py_index d (i - 1)) as [e|di] eqn:Hd;
    [left; by rewrite (py_index_error _ _ _ Hd)|].
  right. by exists xi, ai, bi, ci, di.
Qed.

(** X21.  In exact arithmetic and with [dx > 0], [spline_eval012] raises
    [ValueError] for every [r < Rmin]; on a grid of [N >= 1] segments
    ([N + 1] knots, [N] coefficients per array) whose spacing is exact,
    [Rcut = Rmin + N * dx], it returns a triple for every
    [Rmin <= r <= Rcut]; and it raises [ValueError] exactly when
    [r < Rmin]. *)
Theorem spline_eval012_domain (a b c d : vec) (r Rcut Rmin dx : Qc) (x : vec)
    (N : nat) :
  0 < dx →
  (r < Rmin → spline_eval012 a b c d r Rcut Rmin dx x = inl ValueError) ∧
  ((1 ≤ N)%nat → Rcut = Rmin + Qc_of_Z (Z.of_nat N) * dx →
   length x = S N → length a = N → length b = N → length c = N →
   length d = N → Rmin ≤ r ≤ Rcut →
   ∃ f0 f1 f2, spline_eval012 a b c d r Rcut Rmin dx x = inr (f0, f1, f2)) ∧
  (spline_eval012 a b c d r Rcut Rmin dx x = inl ValueError ↔ r < Rmin).
Proof.
  intros Hdx.
  assert (Hbelow : r < Rmin →
            spline_eval012 a b c d r Rcut Rmin dx x = inl ValueError).
  { intros Hr. destruct (eval_index_below r Rmin dx Hdx Hr) as (i & Hi & Hlt).
    unfold spline_eval012. rewrite Hi. cbn [mbind py_bind].
    by rewrite bool_decide_eq_false_2 by lia. }
  split_and!; [done| |split; [|done]].
  - intros HN -> Hx Ha Hb Hc Hd [Hlo Hhi].
    destruct (eval_index_from_Rmin r Rmin dx Hdx Hlo) as (i & Hi & Hge & Hle).
    specialize (Hle (Z.of_nat N) ltac:(lia) Hhi).
    destruct (spline_eval012_branch a b c d r
                (Rmin + Qc_of_Z (Z.of_nat N) * dx) Rmin dx x i Hi Hge)
      as [Herr | (xi & ai & bi & ci & di & _ & _ & _ & _ & _ & ->)];
      [|by eauto].
    exfalso. unfold spline_eval012 in Herr. rewrite Hi in Herr.
    cbn [mbind py_bind] in Herr.
    rewrite bool_decide_eq_true_2 in Herr by done.
    destruct (py_index_in x i) as (xi & Hxi & _); [lia|].
    destruct (py_index_in a (i - 1)) as (ai & Hai & _); [lia|].
    destruct (py_index_in b (i - 1)) as (bi & Hbi & _); [lia|].
    destruct (py_index_in c (i - 1)) as (ci & Hci & _); [lia|].
    destruct (py_index_in d (i - 1)) as (di & Hdi & _); [lia|].
    by rewrite Hxi, Hai, Hbi, Hci, Hdi in Herr.
  - intros Herr. apply Qclt_nge. intros Hr.
    destruct (eval_index_from_Rmin r Rmin dx Hdx Hr) as (i & Hi & Hge & _).
    destruct (spline_eval012_branch a b c d r Rcut Rmin dx x i Hi Hge)
      as [Herr' | (? & ? & ? & ? & ? & _ & _ & _ & _ & _ & Hok)];
      congruence.
Qed.

(** Closed decidable facts are settled by running their decision
    procedure. *)
Ltac by_compute := apply (bool_decide_unpack _); vm_compute; exact I.

Lemma spline_eval012_domain_witness :
  spline_eval012 [1; 2] [qc 3 1; qc 4 1] [qc 5 1; qc 6 1] [qc 7 1; qc 8 1]
     1 (qc 4 1) 2 1 [2; qc 3 1; qc 4 1] = inl ValueError ∧
  ∃ f0 f1 f2,
    spline_eval012 [1; 2] [qc 3 1; qc 4 1] [qc 5 1; qc 6 1] [qc 7 1; qc 8 1]
      (qc 5 2) (qc 4 1) 2 1 [2; qc 3 1; qc 4 1] = inr (f0, f1, f2).
Proof.
  split.
  - apply (spline_eval012_domain [1; 2] [qc 3 1; qc 4 1] [qc 5 1; qc 6 1]
             [qc 7 1; qc 8 1] 1 (qc 4 1) 2 1 [2; qc 3 1; qc 4 1] 2);
      by_compute.
  - apply (spline_eval012_domain [1; 2] [qc 3 1; qc 4 1] [qc 5 1; qc 6 1]
             [qc 7 1; qc 8 1] (qc 5 2) (qc 4 1) 2 1 [2; qc 3 1; qc 4 1] 2);
      try reflexivity; try lia; by_compute.
Defined.

(** C4.  The claim is right and the code misses it at [r = Rcut] on a grid
    whose [dx] is rounded.  For [Rmin = 2.0], [Rcut = 6.0] and 49 segments,
    [dx = (Rcut - Rmin) / 49] is rounded below [4/49]; the quotient
    [(Rcut - Rmin) / dx] is [49.00000000000001], the evaluator takes its
    ceiling [50] and [x[50]] raises [IndexError] on the 50 knots of
    [np.linspace(2.0, 6.0, 50)].  The index rule of [spline_energy_model],
    which rounds the quotient to 5 decimals first, gives [49] at the same
    input, and so does the evaluator in exact arithmetic. *)
Theorem spline_eval012_raises_at_Rcut :
  let dx := ((6 - 2) / 49)%float in
  let coeffs := replicate 49 0%float in
  (x ← Binary64.np_linspace 2 6 50; mret (length x)) = inr 50%nat ∧
  (2 <=? 6)%float = true ∧ (6 <=? 6)%float = true ∧
  Binary64.eval_index 6 2 dx = inr 50%Z ∧
  (x ← Binary64.np_linspace 2 6 50;
   Binary64.spline_eval012 coeffs coeffs coeffs coeffs 6 6 2 dx x)
    = inl IndexError ∧
  Binary64.model_index 6 2 dx = inr 49%Z ∧
  eval_index (qc 6 1) 2 ((qc 6 1 - 2) / qc 49 1) = inr 49%Z.
Proof.
  cbv zeta. split_and!; vm_compute; reflexivity.
Qed.

(** C6.  With [dx > 0], evaluating at a knot [x[k] = Rmin + k * dx],
    [k >= 1], resolves to segment [k] with [dr = 0] and returns exactly
    [(a[k-1], b[k-1], c[k-1])]. *)
Theorem spline_eval012_at_knot (a b c d : vec) (Rcut Rmin dx : Qc) (x : vec)
    (k : nat) (ak bk ck dk : Qc) :
  0 < dx → (1 ≤ k)%nat →
  x !! k = Some (Rmin + Qc_of_Z (Z.of_nat k) * dx) →
  a !! (k - 1)%nat = Some ak → b !! (k - 1)%nat = Some bk →
  c !! (k - 1)%nat = Some ck → d !! (k - 1)%nat = Some dk →
  spline_eval012 a b c d (Rmin + Qc_of_Z (Z.of_nat k) * dx) Rcut Rmin dx x =
    inr (ak, bk, ck).
Proof.
  intros Hdx Hk Hx Ha Hb Hc Hd. unfold spline_eval012.
  rewrite eval_index_knot by (done || lia). cbn [mbind py_bind].
  rewrite bool_decide_eq_true_2 by lia.
  rewrite (py_index_nonneg x (Z.of_nat k) (Rmin + Qc_of_Z (Z.of_nat k) * dx))
    by (lia || by rewrite Nat2Z.id).
  assert (Hk1 : Z.to_nat (Z.of_nat k - 1) = (k - 1)%nat) by lia.
  rewrite (py_index_nonneg a _ ak) by (lia || by rewrite Hk1).
  rewrite (py_index_nonneg b _ bk) by (lia || by rewrite Hk1).
  rewrite (py_index_nonneg c _ ck) by (lia || by rewrite Hk1).
  rewrite (py_index_nonneg d _ dk) by (lia || by rewrite Hk1).
  cbn [mbind py_bind mret py_ret]. do 2 f_equal; [f_equal|]; unfold Qcdiv; ring.
Qed.

Lemma spline_eval012_at_knot_witness :
  spline_eval012 [1; 2] [qc 3 1; qc 4 1] [qc 5 1; qc 6 1] [qc 7 1; qc 8 1]
    (2 + Qc_of_Z (Z.of_nat 2) * 1) (qc 4 1) 2 1 [2; qc 3 1; qc 4 1] =
  inr (2, qc 4 1, qc 6 1).
Proof.
  apply (spline_eval012_at_knot [1; 2] [qc 3 1; qc 4 1] [qc 5 1; qc 6 1]
           [qc 7 1; qc 8 1] (qc 4 1) 2 1 [2; qc 3 1; qc 4 1] 2 2 (qc 4 1)
           (qc 6 1) (qc 8 1)); try reflexivity; try lia; by_compute.
Defined.

(** C3.  The evaluator takes the ceiling of the quotient itself: unlike
    [spline_energy_model] it does not round to 5 decimals first.  At
    [r = 1.000001] on the grid [Rmin = 0], [dx = 1] the evaluator resolves
    segment 2 (and [dr = r - x[2]]), where the rule with rounding, the one
    of [model_index], gives segment 1. *)
Theorem eval_index_without_rounding :
  let r := qc 1000001 1000000 in
  eval_index r 0 1 = inr 2%Z ∧
  np_ceil (np_around5 ((r - 0) / 1)) = 1%Z ∧
  model_index r 0 1 = inr 1%Z ∧
  spline_eval012 [1; 2] [0; 0] [0; 0] [0; 0] r 2 0 1 [0; 1; 2] = inr (2, 0, 0).
Proof.
  split_and!; [by vm_compute..|].
  apply (bool_decide_unpack _). by vm_compute.
Qed.

(** ** Elementwise sums *)

Lemma vadd_assoc (u v w : vec) : vadd (vadd u v) w = vadd u (vadd v w).
Proof.
  unfold vadd. revert v w.
  induction u as [|a u IH]; intros [|b v] [|c w]; simpl; try done.
  by rewrite IH, Qcplus_assoc.
Qed.

Lemma length_vadd (u w : vec) :
  length (vadd u w) = (length u `min` length w)%nat.
Proof. apply length_zip_with. Qed.

Lemma vadd_zeros_r (w : vec) (n : nat) :
  (length w ≤ n)%nat → vadd w (replicate n 0) = w.
Proof.
  unfold vadd. revert n. induction w as [|a w IH]; intros [|n] Hn; simpl in *;
    try done; try lia.
  rewrite IH by lia. by rewrite Qcplus_0_r.
Qed.

Lemma vadd_replicate_l (q : Qc) (a : vec) (n : nat) :
  (length a ≤ n)%nat → vadd (replicate n q) a = (λ y, q + y) <$> a.
Proof.
  unfold vadd. revert n. induction a as [|y a IH]; intros [|n] Hn; simpl in *;
    try done; try lia.
  by rewrite IH by lia.
Qed.

Lemma fmap_plus_0 (a : vec) : (λ y, 0 + y) <$> a = a.
Proof.
  induction a as [|y a IH]; [done|].
  rewrite fmap_cons, IH. by rewrite Qcplus_0_l.
Qed.

Lemma vscale_0 (row : vec) : vscale row 0 = replicate (length row) 0.
Proof.
  unfold vscale. induction row as [|y row IH]; [done|].
  rewrite fmap_cons, IH. simpl. by rewrite Qcmult_0_r.
Qed.

Lemma vdiv_zeros (n : nat) (s : Qc) : vdiv (replicate n 0) s = replicate n 0.
Proof.
  unfold vdiv. rewrite fmap_replicate. f_equal. unfold Qcdiv. ring.
Qed.

(** ** One distance *)

Lemma pair_term_terms (Rmin dx : Qc) (x : vec) CDBA (u : ndval) (r : Qc) :
  pair_term Rmin dx x CDBA u r =
  (t ← pair_terms Rmin dx x CDBA r; mret (add_terms u t)).
Proof.
  destruct CDBA as [[[C D] B] A]. unfold pair_term, pair_terms.
  destruct (model_index r Rmin dx) as [e|i]; [done|]. cbn [mbind py_bind].
  destruct (py_index x i) as [e|xi]; [done|]. cbn [mbind py_bind].
  destruct (py_index A (i - 1)) as [e|a]; [done|]. cbn [mbind py_bind].
  destruct (py_index B (i - 1)) as [e|Bi]; [done|]. cbn [mbind py_bind].
  destruct (py_index D (i - 1)) as [e|Di]; [done|]. cbn [mbind py_bind].
  destruct (py_index C (i - 1)) as [e|Ci]; [done|]. done.
Qed.

(** The accumulator enters a sum only through the row it stands for. *)
Lemma nd_add_assign (cols : Z) (u : ndval) (a : vec) :
  (length a ≤ Z.to_nat cols)%nat →
  nd_add u a = Array (vadd (assign_row cols u) a).
Proof.
  intros Ha. destruct u as [q|w]; simpl; [|done].
  by rewrite vadd_replicate_l.
Qed.

Lemma add_terms_assign (cols : Z) (u : ndval) (t : vec * vec * vec * vec) :
  (length t.1.1.1 ≤ Z.to_nat cols)%nat →
  add_terms u t =
  Array (vadd (vadd (vadd (vadd (assign_row cols u) t.1.1.1) t.1.1.2) t.1.2) t.2).
Proof.
  destruct t as [[[a b] c_d] d]. simpl. intros Ha.
  by rewrite (nd_add_assign cols u a).
Qed.

(** Rows fetched by [pair_terms] from matrices with [m] columns have [m]
    entries. *)
Lemma pair_terms_lengths (Rmin dx : Qc) (x : vec) C D B A n m r t :
  shape n m C → shape n m D → shape n m B → shape n m A →
  pair_terms Rmin dx x (C, D, B, A) r = inr t →
  length t.1.1.1 = m ∧ length t.1.1.2 = m ∧ length t.1.2 = m ∧ length t.2 = m.
Proof.
  intros HC HD HB HA. unfold pair_terms.
  destruct (model_index r Rmin dx) as [e|i]; [done|]. cbn [mbind py_bind].
  destruct (py_index x i) as [e|xi]; [done|]. cbn [mbind py_bind].
  destruct (py_index A (i - 1)) as [e|a] eqn:Ea; [done|]. cbn [mbind py_bind].
  destruct (py_index B (i - 1)) as [e|Bi] eqn:Eb; [done|]. cbn [mbind py_bind].
  destruct (py_index D (i - 1)) as [e|Di] eqn:Ed; [done|]. cbn [mbind py_bind].
  destruct (py_index C (i - 1)) as [e|Ci] eqn:Ec; [done|]. cbn [mbind py_bind].
  intros [= <-]. simpl. unfold vscale, vdiv. rewrite !length_fmap.
  apply py_index_inv in Ea as [_ Ea], Eb as [_ Eb], Ed as [_ Ed], Ec as [_ Ec].
  destruct HC as [_ HC], HD as [_ HD], HB as [_ HB], HA as [_ HA].
  rewrite Forall_forall in HC, HD, HB, HA. auto.
Qed.

(** ** One configuration *)

Lemma spline_construction_neg (rows cols : Z) (dx : Qc) :
  (rows < 0 ∨ cols < 0)%Z → spline_construction rows cols dx = inl ValueError.
Proof.
  intros H. unfold spline_construction, build_C. by rewrite np_zeros_neg.
Qed.

Lemma energy_model_single (Rcut Rmin : Qc) (row : vec) (cols : Z) (dx : Qc)
    (x : vec) :
  spline_energy_model Rcut Rmin [row] cols dx 1 x =
  (CDBA ← spline_construction (cols - 1) cols dx;
   u ← accumulate Rmin dx x CDBA (qualifying Rcut Rmin row);
   mret [assign_row cols u]).
Proof.
  unfold spline_energy_model.
  destruct (decide (cols < 0)%Z) as [Hneg|Hpos].
  { by rewrite spline_construction_neg by lia. }
  destruct (spline_construction _ _ _) as [e|CDBA]; [done|].
  cbn [mbind py_bind]. rewrite np_zeros_ok by lia. cbn [mbind py_bind].
  change (py_range 1) with [0%Z]. cbn [foldM]. unfold config_row.
  change (py_index [row] 0) with (@inr pyerr vec row). cbn [mbind py_bind].
  destruct (accumulate _ _ _ _ _) as [e|u]; done.
Qed.

Lemma qualifying_cons_in (Rcut Rmin r : Qc) (row : vec) :
  Rmin ≤ r ≤ Rcut →
  qualifying Rcut Rmin (r :: row) = r :: qualifying Rcut Rmin row.
Proof.
  intros [Hlo Hhi]. unfold qualifying. by rewrite filter_cons_True.
Qed.

Lemma qualifying_cons_out (Rcut Rmin r : Qc) (row : vec) :
  ¬ (Rmin ≤ r ≤ Rcut) →
  qualifying Rcut Rmin (r :: row) = qualifying Rcut Rmin row.
Proof.
  intros Hr. unfold qualifying. rewrite filter_cons_False; [done|].
  intros [? ?]. by apply Hr.
Qed.

(** C7, the claim as stated fails on the floats the code computes with.
    On the grid [2, 3, 4, 5, 6] with [dx = 1] the row of the configuration
    [{3.5, 4.5}] has [2.0208333333333335] in column 3 and the sum of the
    rows of [{3.5}] and [{4.5}] has [2.020833333333333] there: the sums
    are rounded in a different order. *)
Lemma additivity_fails_in_binary64 :
  let x := [2; 3; 4; 5; 6]%float in
  let row12 := [0; 0x1.5555555555555p-6; 0x1.1555555555555p-1;
                0x1.02aaaaaaaaaabp+1; 0x1.aaaaaaaaaaaaap+0]%float in
  let row1 := [0; 0x1.5555555555555p-6; 0x1.0aaaaaaaaaaaap-1; 1.5;
               0x1.1555555555555p+0]%float in
  let row2 := [0; 0; 0x1.5555555555555p-6; 0x1.0aaaaaaaaaaaap-1;
               0x1.2aaaaaaaaaaaap-1]%float in
  Binary64.spline_energy_model 6 2 [[3.5; 4.5]%float] 5 1 1 x = inr [row12] ∧
  Binary64.spline_energy_model 6 2 [[3.5]%float] 5 1 1 x = inr [row1] ∧
  Binary64.spline_energy_model 6 2 [[4.5]%float] 5 1 1 x = inr [row2] ∧
  row12 ≠ Binary64.vadd row1 row2.
Proof.
  cbv zeta. split_and!; try (vm_compute; reflexivity).
  intros Heq.
  apply (f_equal (λ l, match l !! 3%nat with
                       | Some f => (f =? 0x1.02aaaaaaaaaabp+1)%float
                       | None => false
                       end)) in Heq.
  vm_compute in Heq. discriminate Heq.
Qed.

(** C7, amended.  Additivity in exact arithmetic: for distances [r1],
    [r2] within [[Rmin, Rcut]], the row of the configuration [{r1, r2}]
    is the elementwise sum of the rows of the configurations [{r1}] and
    [{r2}]. *)
Theorem design_row_additive (Rcut Rmin : Qc) (cols : Z) (dx : Qc) (x : vec)
    (r1 r2 : Qc) (row1 row2 : vec) :
  Rmin ≤ r1 ≤ Rcut → Rmin ≤ r2 ≤ Rcut →
  spline_energy_model Rcut Rmin [[r1]] cols dx 1 x = inr [row1] →
  spline_energy_model Rcut Rmin [[r2]] cols dx 1 x = inr [row2] →
  spline_energy_model Rcut Rmin [[r1; r2]] cols dx 1 x =
    inr [vadd row1 row2].
Proof.
  intros Hr1 Hr2. rewrite !energy_model_single.
  destruct (spline_construction _ _ _) as [e|CDBA]; [done|].
  cbn [mbind py_bind].
  rewrite !qualifying_cons_in by done.
  change (qualifying Rcut Rmin []) with (@nil Qc).
  unfold accumulate. cbn [foldM]. rewrite !pair_term_terms.
  destruct (pair_terms Rmin dx x CDBA r1) as [e|[[[a1 b1] c1] d1]]; [done|].
  cbn [mbind py_bind mret py_ret]. rewrite pair_term_terms.
  destruct (pair_terms Rmin dx x CDBA r2) as [e|[[[a2 b2] c2] d2]]; [done|].
  cbn [mbind py_bind mret py_ret add_terms nd_add assign_row].
  intros [= <-] [= <-]. do 2 f_equal.
  rewrite !fmap_plus_0. by rewrite !vadd_assoc.
Qed.

Lemma design_row_additive_witness :
  spline_energy_model (qc 6 1) 2 [[qc 7 2; qc 9 2]] 5 1 1
    [2; qc 3 1; qc 4 1; qc 5 1; qc 6 1] =
  inr [vadd [0; qc 1 48; qc 25 48; qc 3 2; qc 13 12]
            [0; 0; qc 1 48; qc 25 48; qc 7 12]].
Proof.
  apply (design_row_additive (qc 6 1) 2 5 1 [2; qc 3 1; qc 4 1; qc 5 1; qc 6 1]
           (qc 7 2) (qc 9 2)); by_compute.
Defined.

(** ** Rounding to 5 decimals *)

Lemma np_rint_cases (q : Q) :
  (np_rint q = Qfloor q ∧ (q - inject_Z (Qfloor q) <= 1 # 2)%Q) ∨
  (np_rint q = (Qfloor q + 1)%Z ∧ (1 # 2 <= q - inject_Z (Qfloor q))%Q).
Proof.
  unfold np_rint.
  destruct (Qcompare_spec (q - inject_Z (Qfloor q)) (1 # 2)) as [He|Hl|Hg].
  - destruct (Z.even (Qfloor q)); [left|right]; split; try done;
      rewrite He; apply Qle_refl.
  - left. split; [done|]. by apply Qlt_le_weak.
  - right. split; [done|]. by apply Qlt_le_weak.
Qed.

Lemma np_rint_nonneg (q : Q) : (0 <= q)%Q → (0 ≤ np_rint q)%Z.
Proof.
  intros Hq. apply Qfloor_resp_le in Hq. change (Qfloor 0) with 0%Z in Hq.
  destruct (np_rint_cases q) as [[-> _]|[-> _]]; lia.
Qed.

Lemma np_rint_le (q : Q) (M : Z) : (q <= inject_Z M)%Q → (np_rint q ≤ M)%Z.
Proof.
  intros Hq. pose proof (Qfloor_resp_le _ _ Hq) as Hf.
  rewrite Qfloor_Z in Hf.
  destruct (np_rint_cases q) as [[-> _]|[-> Hhalf]]; [done|].
  destruct (decide (Qfloor q = M)) as [Heq|Hne]; [|lia].
  exfalso. rewrite Heq in Hhalf. lra.
Qed.

Lemma np_rint_Z (z : Z) : np_rint (inject_Z z) = z.
Proof.
  assert (Hf := Qfloor_Z z).
  destruct (np_rint_cases (inject_Z z)) as [[-> _]|[_ Hhalf]]; [done|].
  exfalso. rewrite Hf in Hhalf. lra.
Qed.

Lemma Qc_of_Z_spec (z : Z) (q : Q) : (q == inject_Z z)%Q → Q2Qc q = Qc_of_Z z.
Proof.
  intros Hq. apply Qc_is_canon. simpl. by rewrite Qred_correct.
Qed.

Lemma np_around5_of_Z (z : Z) : np_around5 (Qc_of_Z z) = Qc_of_Z z.
Proof.
  unfold np_around5. rewrite this_Qc_of_Z.
  replace (inject_Z z * 100000)%Q with (inject_Z (z * 100000)).
  2:{ unfold inject_Z, Qmult. simpl. done. }
  rewrite np_rint_Z. apply Qc_of_Z_spec.
  rewrite inject_Z_mult. field.
Qed.

Lemma Qcle_Q2Qc_r (a : Qc) (q : Q) : a ≤ Q2Qc q ↔ (a <= q)%Q.
Proof. unfold Qcle. cbn [this Q2Qc]. by rewrite Qred_correct. Qed.

Lemma Qcle_Q2Qc_l (q : Q) (a : Qc) : Q2Qc q ≤ a ↔ (q <= a)%Q.
Proof. unfold Qcle. cbn [this Q2Qc]. by rewrite Qred_correct. Qed.

Lemma np_around5_nonneg (q : Qc) : 0 ≤ q → 0 ≤ np_around5 q.
Proof.
  intros Hq. unfold np_around5. apply Qcle_Q2Qc_r.
  change (this 0) with 0%Q.
  assert (H0 : (0 <= q * 100000)%Q).
  { apply Qmult_le_0_compat; [exact Hq|done]. }
  apply np_rint_nonneg in H0.
  apply Qle_shift_div_l; [done|]. rewrite Qmult_0_l.
  change 0%Q with (inject_Z 0). by rewrite <- Zle_Qle.
Qed.

Lemma np_around5_le (q : Qc) (N : Z) : q ≤ Qc_of_Z N → np_around5 q ≤ Qc_of_Z N.
Proof.
  intros Hq. unfold np_around5. apply Qcle_Q2Qc_l. rewrite this_Qc_of_Z.
  unfold Qcle in Hq. rewrite this_Qc_of_Z in Hq.
  assert (H0 : (q * 100000 <= inject_Z (N * 100000))%Q).
  { rewrite inject_Z_mult. apply Qmult_le_compat_r; [exact Hq|done]. }
  apply np_rint_le in H0.
  apply Qle_shift_div_r; [done|].
  rewrite (Zle_Qle _ _) in H0. rewrite inject_Z_mult in H0. exact H0.
Qed.

Lemma np_ceil_nonneg (q : Qc) : 0 ≤ q → (0 ≤ np_ceil q)%Z.
Proof. intros Hq. apply np_ceil_ge. by rewrite Qc_of_Z_0. Qed.

(** ** The segment index of the builder *)

Lemma model_index_within (r Rmin dx : Qc) (N : Z) :
  0 < dx → Rmin ≤ r → r ≤ Rmin + Qc_of_Z N * dx →
  ∃ i, model_index r Rmin dx = inr i ∧ (0 ≤ i ≤ N)%Z.
Proof.
  intros Hdx Hlo Hhi. unfold model_index.
  rewrite bool_decide_eq_false_2 by by apply Qclt_neq0.
  eexists. split; [done|]. split.
  - apply np_ceil_nonneg, np_around5_nonneg.
    apply Qcdiv_ge_iff; [done|]. rewrite Qcmult_0_l. by apply Qcminus_ge_0.
  - apply np_ceil_le, np_around5_le.
    apply Qcdiv_le_iff; [done|]. by apply Qcminus_le_iff.
Qed.

Lemma model_index_Rmin (Rmin dx : Qc) :
  dx ≠ 0 → model_index Rmin Rmin dx = inr 0%Z.
Proof.
  intros Hdx. unfold model_index. rewrite bool_decide_eq_false_2 by done.
  replace ((Rmin - Rmin) / dx) with (Qc_of_Z 0).
  - by rewrite np_around5_of_Z, np_ceil_of_Z.
  - rewrite Qc_of_Z_0. by field.
Qed.

Lemma model_index_Rcut (Rcut Rmin dx : Qc) (N : Z) :
  dx ≠ 0 → Rcut - Rmin = Qc_of_Z N * dx →
  model_index Rcut Rmin dx = inr N.
Proof.
  intros Hdx HN. unfold model_index. rewrite bool_decide_eq_false_2 by done.
  replace ((Rcut - Rmin) / dx) with (Qc_of_Z N).
  - by rewrite np_around5_of_Z, np_ceil_of_Z.
  - rewrite HN. by field.
Qed.

(** With [n] segments ([n] rows, [x] of [n + 1] knots) the array accesses
    of one distance succeed exactly for an index in [[1 - n, n]]. *)
Lemma pair_terms_in_range (Rmin dx : Qc) (x : vec) C D B A (n m : nat)
    (r : Qc) (i : Z) :
  shape n m C → shape n m D → shape n m B → shape n m A →
  length x = S n →
  model_index r Rmin dx = inr i → (1 - Z.of_nat n ≤ i ≤ Z.of_nat n)%Z →
  ∃ t, pair_terms Rmin dx x (C, D, B, A) r = inr t.
Proof.
  intros [HC _] [HD _] [HB _] [HA _] Hx Hi Hrange. unfold pair_terms.
  rewrite Hi. cbn [mbind py_bind].
  destruct (py_index_in x i) as (xi & -> & _); [lia|]. cbn [mbind py_bind].
  destruct (py_index_in A (i - 1)) as (a & -> & _); [lia|].
  cbn [mbind py_bind].
  destruct (py_index_in B (i - 1)) as (Bi & -> & _); [lia|].
  cbn [mbind py_bind].
  destruct (py_index_in D (i - 1)) as (Di & -> & _); [lia|].
  cbn [mbind py_bind].
  destruct (py_index_in C (i - 1)) as (Ci & -> & _); [lia|].
  cbn [mbind py_bind]. by eexists.
Qed.

Lemma pair_terms_out_of_range (Rmin dx : Qc) (x : vec) C D B A (n m : nat)
    (r : Qc) (i : Z) :
  shape n m C → shape n m D → shape n m B → shape n m A →
  length x = S n →
  model_index r Rmin dx = inr i → ¬ (1 - Z.of_nat n ≤ i ≤ Z.of_nat n)%Z →
  pair_terms Rmin dx x (C, D, B, A) r = inl IndexError.
Proof.
  intros [HC _] [HD _] [HB _] [HA _] Hx Hi Hrange. unfold pair_terms.
  rewrite Hi. cbn [mbind py_bind].
  destruct (py_index x i) as [e|xi] eqn:Ex.
  { by rewrite (py_index_error _ _ _ Ex). }
  cbn [mbind py_bind]. apply py_index_inv in Ex as [Ex _].
  rewrite (py_index_out A (i - 1)) by lia. done.
Qed.

(** ** The loops *)

Lemma foldM_ext {A B} (f g : B → A → py B) (b : B) (l : list A) :
  (∀ b a, f b a = g b a) → foldM f b l = foldM g b l.
Proof.
  intros Hfg. revert b. induction l as [|a l IH]; intros b; [done|].
  simpl. rewrite Hfg. destruct (g b a); simpl; [done|apply IH].
Qed.

Lemma accumulate_total (Rmin dx : Qc) (x : vec) CDBA (l : vec) (u : ndval) :
  Forall (λ r, ∃ t, pair_terms Rmin dx x CDBA r = inr t) l →
  ∃ u', foldM (pair_term Rmin dx x CDBA) u l = inr u'.
Proof.
  intros Hl. revert u. induction Hl as [|r l [t Ht] _ IH]; intros u.
  - by eexists.
  - simpl. rewrite pair_term_terms, Ht. cbn [mbind py_bind mret py_ret].
    apply IH.
Qed.

Lemma py_range_seq (size : Z) :
  py_range size = Z.of_nat <$> seq 0 (Z.to_nat size).
Proof.
  unfold py_range, seqZ. apply list_fmap_ext. intros _ i _. lia.
Qed.

Lemma py_index_of_nat {A} (l : list A) (k : nat) :
  py_index l (Z.of_nat k) =
  match l !! k with Some a => inr a | None => inl IndexError end.
Proof.
  destruct (l !! k) as [a|] eqn:Hk.
  - apply py_index_nonneg; [lia|]. by rewrite Nat2Z.id.
  - apply py_index_out. apply lookup_ge_None in Hk. lia.
Qed.

Section config_loop.
Variables (Rcut Rmin : Qc) (df : matrix) (cols : Z) (dx : Qc) (x : vec).
Variable CDBA : matrix * matrix * matrix * matrix.

Lemma config_row_of_nat (v : matrix) (k : nat) :
  config_row Rcut Rmin df cols dx x CDBA v (Z.of_nat k) =
  match df !! k with
  | Some row =>
      u ← accumulate Rmin dx x CDBA (qualifying Rcut Rmin row);
      mret (<[k := assign_row cols u]> v)
  | None => inl IndexError
  end.
Proof.
  unfold config_row. rewrite py_index_of_nat, Nat2Z.id.
  by destruct (df !! k).
Qed.

(** What the loop over the configurations [s, ..., s + n - 1] leaves
    in [v]. *)
Lemma config_loop_rows (n : nat) : ∀ (s : nat) (v v' : matrix),
  (s + n ≤ length v)%nat →
  foldM (config_row Rcut Rmin df cols dx x CDBA) v (Z.of_nat <$> seq s n)
    = inr v' →
  length v' = length v ∧
  (∀ k, (k < s)%nat → v' !! k = v !! k) ∧
  (∀ k, (s ≤ k < s + n)%nat →
     ∃ row u, df !! k = Some row ∧
       accumulate Rmin dx x CDBA (qualifying Rcut Rmin row) = inr u ∧
       v' !! k = Some (assign_row cols u)).
Proof.
  induction n as [|n IH]; intros s v v' Hlen Hrun.
  - simpl in Hrun. injection Hrun as <-. split_and!; [done|done|].
    intros k Hk. lia.
  - change (seq s (S n)) with (s :: seq (S s) n) in Hrun.
    rewrite fmap_cons in Hrun. cbn [foldM] in Hrun.
    apply bind_succeeds in Hrun as (v1 & Hv1 & Hrun).
    rewrite config_row_of_nat in Hv1.
    destruct (df !! s) as [row|] eqn:Hrow; [|done].
    apply bind_succeeds in Hv1 as (u & Hu & Hv1).
    injection Hv1 as <-.
    apply IH in Hrun as (Hl & Hbefore & Hrows);
      [|rewrite length_insert; lia].
    rewrite length_insert in Hl. split_and!; [done| |].
    + intros k Hk. rewrite Hbefore by lia.
      apply list_lookup_insert_ne. lia.
    + intros k Hk. destruct (decide (k = s)) as [->|Hne].
      * exists row, u. split_and!; [done|done|].
        rewrite Hbefore by lia. apply list_lookup_insert_eq. lia.
      * apply Hrows. lia.
Qed.

(** The loop completes when every configuration has a row and every
    qualifying distance resolves to rows that exist. *)
Lemma config_loop_total (n : nat) : ∀ (s : nat) (v : matrix),
  (∀ k, (s ≤ k < s + n)%nat → ∃ row, df !! k = Some row ∧
     Forall (λ r, ∃ t, pair_terms Rmin dx x CDBA r = inr t)
       (qualifying Rcut Rmin row)) →
  ∃ v', foldM (config_row Rcut Rmin df cols dx x CDBA) v
          (Z.of_nat <$> seq s n) = inr v'.
Proof.
  induction n as [|n IH]; intros s v Hrows; [by eexists|].
  change (seq s (S n)) with (s :: seq (S s) n).
  rewrite fmap_cons. cbn [foldM]. rewrite config_row_of_nat.
  destruct (Hrows s ltac:(lia)) as (row & -> & Hq).
  destruct (accumulate_total Rmin dx x CDBA _ (Scalar 0) Hq) as [u Hu].
  unfold accumulate. rewrite Hu. cbn [mbind py_bind mret py_ret].
  apply IH. intros k Hk. apply Hrows. lia.
Qed.
End config_loop.

(** ** The design matrix *)

Lemma energy_model_rows (Rcut Rmin : Qc) (df : matrix) (cols : Z) (dx : Qc)
    (size : Z) (x : vec) (v : matrix) :
  spline_energy_model Rcut Rmin df cols dx size x = inr v →
  ∃ CDBA,
    spline_construction (cols - 1) cols dx = inr CDBA ∧
    length v = Z.to_nat size ∧
    ∀ k, (k < Z.to_nat size)%nat →
      ∃ row u, df !! k = Some row ∧
        accumulate Rmin dx x CDBA (qualifying Rcut Rmin row) = inr u ∧
        v !! k = Some (assign_row cols u).
Proof.
  unfold spline_energy_model. intros Hrun.
  apply bind_succeeds in Hrun as (CDBA & HCDBA & Hrun).
  apply bind_succeeds in Hrun as (v0 & Hv0 & Hrun).
  exists CDBA. split; [done|].
  unfold np_zeros in Hv0. case_bool_decide; [done|]. injection Hv0 as <-.
  rewrite py_range_seq in Hrun.
  apply config_loop_rows in Hrun as (Hl & _ & Hrows);
    [|rewrite length_replicate; lia].
  rewrite length_replicate in Hl. split; [done|].
  intros k Hk. apply Hrows. lia.
Qed.

Lemma energy_model_total (Rcut Rmin : Qc) (df : matrix) (dx : Qc)
    (size : Z) (x : vec) (n : nat) :
  length x = S (S n) → (0 ≤ size ≤ Z.of_nat (length df))%Z →
  (∀ row r, row ∈ df → r ∈ qualifying Rcut Rmin row →
     ∃ i, model_index r Rmin dx = inr i ∧ (- Z.of_nat n ≤ i ≤ Z.of_nat (S n))%Z) →
  ∃ v, spline_energy_model Rcut Rmin df (Z.of_nat (S (S n))) dx size x = inr v.
Proof.
  intros Hx Hsize Hidx. unfold spline_energy_model.
  replace (Z.of_nat (S (S n)) - 1)%Z with (Z.of_nat (S n)) by lia.
  destruct (spline_construction_ok n (S n) dx)
    as (C & D & B' & A' & -> & _ & _ & HsC & HsD & HsB & HsA).
  cbn [mbind py_bind]. rewrite np_zeros_ok by lia. cbn [mbind py_bind].
  rewrite py_range_seq. apply config_loop_total.
  intros k Hk. destruct (lookup_lt_is_Some_2 df k) as [row Hrow]; [lia|].
  exists row. split; [done|]. apply Forall_forall. intros r Hr.
  destruct (Hidx row r) as (i & Hi & Hrange);
    [by eapply list_elem_of_lookup_2|done|].
  eapply (pair_terms_in_range _ _ _ _ _ _ _ (S n) (S (S n))); eauto;
    try (by apply shape_snoc_zeros); lia.
Qed.

Lemma qualifying_spec (Rcut Rmin r : Qc) (row : vec) :
  r ∈ qualifying Rcut Rmin row ↔ r ∈ row ∧ Rmin ≤ r ≤ Rcut.
Proof. unfold qualifying. rewrite list_elem_of_filter. tauto. Qed.

(** On a grid with [dx > 0] that reaches [Rcut], or with an empty window
    [Rcut < Rmin], every qualifying distance resolves to an index in
    [[0, cols - 1]] and the builder returns a matrix. *)
Lemma energy_model_total_grid (Rcut Rmin : Qc) (df : matrix) (cols : Z)
    (dx : Qc) (size : Z) (x : vec) :
  (2 ≤ cols)%Z → Z.of_nat (length x) = cols →
  (0 ≤ size ≤ Z.of_nat (length df))%Z →
  Rcut < Rmin ∨ (0 < dx ∧ Rcut ≤ Rmin + Qc_of_Z (cols - 1) * dx) →
  ∃ v, spline_energy_model Rcut Rmin df cols dx size x = inr v.
Proof.
  intros Hcols Hx Hsize Hgrid.
  destruct (Z.to_nat cols) as [|[|n]] eqn:Hn; [lia|lia|].
  assert (cols = Z.of_nat (S (S n))) as -> by lia.
  apply energy_model_total; [lia|done|].
  intros row r _ [_ [Hlo Hhi]]%qualifying_spec.
  destruct Hgrid as [Hempty|[Hdx Hreach]].
  - exfalso. apply (Qclt_not_le _ _ Hempty). by etrans.
  - destruct (model_index_within r Rmin dx (Z.of_nat (S (S n)) - 1) Hdx Hlo)
      as (i & Hi & Hrange); [by etrans|].
    exists i. split; [done|lia].
Qed.

(** C8.  A configuration whose distances all lie outside [[Rmin, Rcut]]
    gets the all-zero row of length [cols]: this holds in every matrix the
    builder returns, and the builder does return one on every grid with
    [cols >= 2] knots [x], [dx > 0] reaching [Rcut] (or an empty window)
    and [size] configurations present in [df]. *)
Theorem empty_configuration_zero_row (Rcut Rmin : Qc) (df : matrix)
    (cols : Z) (dx : Qc) (size : Z) (x : vec) :
  (∀ v k row,
     spline_energy_model Rcut Rmin df cols dx size x = inr v →
     (k < Z.to_nat size)%nat → df !! k = Some row →
     (∀ r, r ∈ row → ¬ (Rmin ≤ r ≤ Rcut)) →
     v !! k = Some (replicate (Z.to_nat cols) 0)) ∧
  ((2 ≤ cols)%Z → Z.of_nat (length x) = cols →
   (0 ≤ size ≤ Z.of_nat (length df))%Z →
   Rcut < Rmin ∨ (0 < dx ∧ Rcut ≤ Rmin + Qc_of_Z (cols - 1) * dx) →
   ∃ v, spline_energy_model Rcut Rmin df cols dx size x = inr v).
Proof.
  split; [|apply energy_model_total_grid].
  intros v k row Hrun Hk Hrow Hout.
  apply energy_model_rows in Hrun as (CDBA & _ & _ & Hrows).
  destruct (Hrows k Hk) as (row' & u & Hrow' & Hu & ->).
  assert (row' = row) as -> by congruence.
  assert (qualifying Rcut Rmin row = []) as Hq.
  { apply elem_of_nil_inv. intros r [Hr Hin]%qualifying_spec.
    by apply (Hout r). }
  rewrite Hq in Hu. injection Hu as <-. done.
Qed.

Lemma empty_configuration_zero_row_witness :
  (∃ v, spline_energy_model (qc 6 1) 2 [[1; qc 7 1]; [qc 7 2]] 5 1 2
          [2; qc 3 1; qc 4 1; qc 5 1; qc 6 1] = inr v) ∧
  ∀ v, spline_energy_model (qc 6 1) 2 [[1; qc 7 1]; [qc 7 2]] 5 1 2
         [2; qc 3 1; qc 4 1; qc 5 1; qc 6 1] = inr v →
       v !! 0%nat = Some (replicate 5 0).
Proof.
  pose proof (empty_configuration_zero_row (qc 6 1) 2 [[1; qc 7 1]; [qc 7 2]]
                5 1 2 [2; qc 3 1; qc 4 1; qc 5 1; qc 6 1]) as [Hzero Hret].
  split.
  - apply Hret; [lia|reflexivity|simpl; lia|right; split; by_compute].
  - intros v Hv. apply (Hzero v 0%nat [1; qc 7 1] Hv); [simpl; lia|reflexivity|].
    intros r Hr.
    apply elem_of_cons in Hr as [->|Hr]; [by_compute|].
    apply elem_of_cons in Hr as [->|Hr]; [by_compute|].
    exfalso. exact (proj1 (elem_of_nil r) Hr).
Defined.

(** ** The knot sequence *)

Lemma np_linspace_knots (start stop : Qc) (n : nat) :
  ∃ x, np_linspace start stop (Z.of_nat (S (S n))) = inr x ∧
       length x = S (S n) ∧ x !! 0%nat = Some start ∧
       x !! S n = Some stop.
Proof.
  unfold np_linspace. rewrite bool_decide_eq_false_2 by lia.
  rewrite (bool_decide_eq_true_2 (0 < _)%Z) by lia.
  rewrite (bool_decide_eq_true_2 (1 < _)%Z) by lia.
  eexists. split; [done|].
  replace (Z.to_nat (Z.of_nat (S (S n)) - 1)) with (S n) by lia.
  rewrite py_range_seq, Nat2Z.id.
  set (y := _ <$> (_ <$> (_ <$> (_ <$> seq 0 (S (S n)))))).
  assert (Hy : length y = S (S n)).
  { unfold y. by rewrite !length_fmap, length_seq. }
  split_and!.
  - by rewrite length_insert.
  - rewrite list_lookup_insert_ne by lia. unfold y. simpl. f_equal.
    change (Z.of_nat 0) with 0%Z. rewrite Qc_of_Z_0. ring.
  - apply list_lookup_insert_eq. lia.
Qed.

(** ** Distances on the boundary of the window *)

Lemma Qcpower_0 (k : nat) : (0 < k)%nat → (0 : Qc) ^ k = 0.
Proof. destruct k; [lia|]. intros _. simpl. ring. Qed.

Section boundary.
Variables (Rcut Rmin dx : Qc) (x : vec) (n : nat).
Variables (C D B' A' : matrix).
Let m := S (S n).
Let zeros := np_zeros1 (Z.of_nat m).
Let CDBA := (C, D, B' ++ [zeros], A' ++ [zeros]).
Hypothesis HsC : shape (S n) m C.
Hypothesis HsD : shape (S n) m D.
Hypothesis HsB : shape n m B'.
Hypothesis HsA : shape n m A'.
Hypothesis Hx : length x = m.
Hypothesis Hdx : dx ≠ 0.

Lemma zeros_replicate : zeros = replicate m 0.
Proof. unfold zeros, np_zeros1. by rewrite Nat2Z.id. Qed.

(** A distance that sits exactly on the knot of its index, that index
    being [0] or [cols - 1], adds four rows of zeros. *)
Lemma pair_terms_on_last_row (r : Qc) (i : Z) :
  model_index r Rmin dx = inr i → (i = 0 ∨ i = Z.of_nat (S n))%Z →
  py_index x i = inr r →
  pair_terms Rmin dx x CDBA r = inr (zeros, zeros, zeros, zeros).
Proof.
  intros Hi Hlast Hxi. unfold pair_terms, CDBA. rewrite Hi.
  cbn [mbind py_bind]. rewrite Hxi. cbn [mbind py_bind].
  rewrite (py_index_last A' zeros) by (destruct HsA; lia).
  rewrite (py_index_last B' zeros) by (destruct HsB; lia).
  cbn [mbind py_bind].
  destruct (py_index_in D (i - 1)) as (Di & -> & HDi);
    [destruct HsD; lia|].
  destruct (py_index_in C (i - 1)) as (Ci & -> & HCi);
    [destruct HsC; lia|].
  cbn [mbind py_bind mret py_ret].
  replace (r - r) with (0 : Qc) by ring. rewrite !Qcpower_0 by lia.
  destruct HsC as [_ HC], HsD as [_ HD].
  rewrite Forall_forall in HC, HD.
  rewrite !vscale_0, (HC Ci HCi), (HD Di HDi), !vdiv_zeros.
  rewrite zeros_replicate, length_replicate. done.
Qed.

Lemma add_terms_zeros (u : ndval) :
  length (assign_row (Z.of_nat m) u) = m →
  assign_row (Z.of_nat m) (add_terms u (zeros, zeros, zeros, zeros)) =
  assign_row (Z.of_nat m) u.
Proof.
  intros Hu. rewrite (add_terms_assign (Z.of_nat m)).
  2:{ simpl. rewrite zeros_replicate, length_replicate. lia. }
  simpl. rewrite zeros_replicate.
  do 4 rewrite (vadd_zeros_r (assign_row (Z.of_nat m) u)) by lia. done.
Qed.

Lemma pair_term_assign_eq (u u' : ndval) (r : Qc) :
  assign_row (Z.of_nat m) u = assign_row (Z.of_nat m) u' →
  pair_term Rmin dx x CDBA u r = pair_term Rmin dx x CDBA u' r.
Proof.
  intros Huu'. rewrite !pair_term_terms.
  destruct (pair_terms Rmin dx x CDBA r) as [e|t] eqn:Et; [done|].
  cbn [mbind py_bind mret py_ret]. f_equal.
  apply (pair_terms_lengths _ _ _ _ _ _ _ (S n) m) in Et as (Ha & _);
    try done; try (by apply shape_snoc_zeros).
  rewrite !(add_terms_assign (Z.of_nat m)) by lia. by rewrite Huu'.
Qed.

Lemma pair_term_length (u u1 : ndval) (r : Qc) :
  length (assign_row (Z.of_nat m) u) = m →
  pair_term Rmin dx x CDBA u r = inr u1 →
  length (assign_row (Z.of_nat m) u1) = m.
Proof.
  intros Hu. rewrite pair_term_terms.
  destruct (pair_terms Rmin dx x CDBA r) as [e|t] eqn:Et; [done|].
  cbn [mbind py_bind mret py_ret]. intros [= <-].
  apply (pair_terms_lengths _ _ _ _ _ _ _ (S n) m) in Et
    as (Ha & Hb & Hc & Hd);
    try done; try (by apply shape_snoc_zeros).
  rewrite (add_terms_assign (Z.of_nat m)) by lia. simpl.
  rewrite !length_vadd. lia.
Qed.

Lemma stored_row_assign_eq (l : vec) : ∀ u u',
  assign_row (Z.of_nat m) u = assign_row (Z.of_nat m) u' →
  stored_row (Z.of_nat m) (foldM (pair_term Rmin dx x CDBA) u l) =
  stored_row (Z.of_nat m) (foldM (pair_term Rmin dx x CDBA) u' l).
Proof.
  destruct l as [|r l]; intros u u' Huu'.
  - unfold stored_row. simpl. by rewrite Huu'.
  - cbn [foldM]. by rewrite (pair_term_assign_eq u u' r Huu').
Qed.

Hypothesis Hx0 : x !! 0%nat = Some Rmin.
Hypothesis HxN : x !! S n = Some Rcut.
Hypothesis Hreach : Rcut - Rmin = Qc_of_Z (Z.of_nat (S n)) * dx.

Lemma pair_terms_boundary (r : Qc) :
  r = Rmin ∨ r = Rcut →
  pair_terms Rmin dx x CDBA r = inr (zeros, zeros, zeros, zeros).
Proof.
  intros [-> | ->].
  - apply (pair_terms_on_last_row Rmin 0); [by apply model_index_Rmin|lia|].
    by apply py_index_nonneg.
  - apply (pair_terms_on_last_row Rcut (Z.of_nat (S n)));
      [by apply model_index_Rcut|lia|].
    apply py_index_nonneg; [lia|]. by rewrite Nat2Z.id.
Qed.

(** Removing the boundary distances does not change the stored row. *)
Lemma stored_row_remove_boundary (l : vec) : ∀ u,
  length (assign_row (Z.of_nat m) u) = m →
  stored_row (Z.of_nat m) (foldM (pair_term Rmin dx x CDBA) u l) =
  stored_row (Z.of_nat m)
    (foldM (pair_term Rmin dx x CDBA) u (remove_boundary Rcut Rmin l)).
Proof.
  induction l as [|r l IH]; intros u Hu; [done|].
  unfold remove_boundary in *.
  destruct (decide (r ≠ Rmin ∧ r ≠ Rcut)) as [Hin|Hbd].
  - rewrite filter_cons_True by done. cbn [foldM].
    destruct (pair_term Rmin dx x CDBA u r) as [e|u1] eqn:E1; [done|].
    cbn [mbind py_bind]. apply IH. by eapply pair_term_length.
  - rewrite filter_cons_False by done. cbn [foldM].
    rewrite pair_term_terms, pair_terms_boundary.
    2:{ destruct (decide (r = Rmin)); [by left|].
        destruct (decide (r = Rcut)); [by right|]. by destruct Hbd. }
    cbn [mbind py_bind mret py_ret].
    rewrite <- IH by done.
    apply stored_row_assign_eq. by apply add_terms_zeros.
Qed.
End boundary.

Lemma py_index_fmap {A B} (f : A → B) (l : list A) (i : Z) :
  py_index (f <$> l) i = (a ← py_index l i; mret (f a)).
Proof.
  unfold py_index. rewrite length_fmap, list_lookup_fmap.
  case_bool_decide; [|done]. by destruct (l !! _).
Qed.

Lemma qualifying_remove_boundary (Rcut Rmin : Qc) (row : vec) :
  qualifying Rcut Rmin (remove_boundary Rcut Rmin row) =
  remove_boundary Rcut Rmin (qualifying Rcut Rmin row).
Proof.
  unfold qualifying, remove_boundary. rewrite !list_filter_filter.
  apply list_filter_iff. tauto.
Qed.

Lemma Qc_of_Z_neq0 (k : Z) : (1 ≤ k)%Z → Qc_of_Z k ≠ 0.
Proof. intros Hk. apply Qclt_neq0, Qc_of_Z_pos. lia. Qed.

(** C10.  On the grid of a [Twobody] ([cols = Nknots + 1],
    [dx = (Rcut - Rmin) / Nknots], [x = linspace(Rmin, Rcut, cols)]) a
    distance equal to [Rmin] resolves to index [0] and one equal to [Rcut]
    to index [cols - 1]; [A[-1]], [B[-1]] and [A[cols - 2]], [B[cols - 2]]
    are the appended rows of zeros and [delta = 0], so either distance
    adds four rows of zeros; the design matrix is the one computed with
    the exact-boundary distances removed. *)
Theorem boundary_distances_contribute_zero (Rcut Rmin : Qc) (Nknots : Z)
    (df : matrix) (size : Z) (x : vec) :
  let cols := (Nknots + 1)%Z in
  let dx := (Rcut - Rmin) / Qc_of_Z Nknots in
  let zeros := np_zeros1 cols in
  (1 ≤ Nknots)%Z → Rmin < Rcut → np_linspace Rmin Rcut cols = inr x →
  model_index Rmin Rmin dx = inr 0%Z ∧
  model_index Rcut Rmin dx = inr (cols - 1)%Z ∧
  (∃ C D B A,
     spline_construction (cols - 1) cols dx = inr (C, D, B, A) ∧
     py_index A (0 - 1) = inr zeros ∧ py_index B (0 - 1) = inr zeros ∧
     py_index A (cols - 1 - 1) = inr zeros ∧
     py_index B (cols - 1 - 1) = inr zeros ∧
     pair_terms Rmin dx x (C, D, B, A) Rmin = inr (zeros, zeros, zeros, zeros) ∧
     pair_terms Rmin dx x (C, D, B, A) Rcut = inr (zeros, zeros, zeros, zeros)) ∧
  spline_energy_model Rcut Rmin df cols dx size x =
  spline_energy_model Rcut Rmin (remove_boundary Rcut Rmin <$> df) cols dx
    size x.
Proof.
  intros cols dx zeros HN Hlt Hlin.
  destruct (Z.to_nat Nknots) as [|n] eqn:Hn; [lia|].
  assert (Nknots = Z.of_nat (S n)) as HNk by lia.
  assert (HNne : Qc_of_Z Nknots ≠ 0) by by apply Qc_of_Z_neq0.
  assert (Hreach : Rcut - Rmin = Qc_of_Z (Z.of_nat (S n)) * dx).
  { rewrite <- HNk. unfold dx. by field. }
  assert (Hdx : dx ≠ 0).
  { intros Hz. rewrite Hz, Qcmult_0_r in Hreach.
    apply Qcminus_gt_0 in Hlt. rewrite Hreach in Hlt.
    by apply Qclt_not_eq in Hlt. }
  clearbody dx. subst zeros cols.
  replace (Nknots + 1)%Z with (Z.of_nat (S (S n))) in * by lia.
  replace (Z.of_nat (S (S n)) - 1)%Z with (Z.of_nat (S n)) by lia.
  destruct (np_linspace_knots Rmin Rcut n) as (x' & Hx' & Hlen & Hx0 & HxN).
  assert (x' = x) as -> by congruence.
  destruct (spline_construction_ok n (S n) dx)
    as (C & D & B' & A' & Hok & _ & _ & HsC & HsD & HsB & HsA).
  pose proof (pair_terms_boundary Rcut Rmin dx x n C D B' A'
                HsC HsD HsB HsA Hlen Hdx Hx0 HxN Hreach) as Hbd.
  cbv zeta in Hbd.
  split_and!.
  - by apply model_index_Rmin.
  - by apply model_index_Rcut.
  - eexists C, D, _, _. split_and!; [exact Hok|..].
    + apply py_index_last. lia.
    + apply py_index_last. lia.
    + apply py_index_last. destruct HsA. lia.
    + apply py_index_last. destruct HsB. lia.
    + apply Hbd. by left.
    + apply Hbd. by right.
  - unfold spline_energy_model.
    replace (Z.of_nat (S (S n)) - 1)%Z with (Z.of_nat (S n)) by lia.
    rewrite Hok. cbn [mbind py_bind].
    destruct (np_zeros size _) as [e|v0]; [done|]. cbn [mbind py_bind].
    apply foldM_ext. intros v k. unfold config_row.
    rewrite py_index_fmap.
    destruct (py_index df k) as [e|row]; [done|].
    cbn [mbind py_bind mret py_ret]. rewrite qualifying_remove_boundary.
    unfold accumulate.
    pose proof (stored_row_remove_boundary Rcut Rmin dx x n C D B' A'
                  HsC HsD HsB HsA Hlen Hdx Hx0 HxN Hreach
                  (qualifying Rcut Rmin row) (Scalar 0)) as Heq.
    cbv zeta in Heq. unfold stored_row in Heq.
    destruct (foldM _ _ (qualifying Rcut Rmin row)) as [e1|u1],
             (foldM _ _ (remove_boundary Rcut Rmin _)) as [e2|u2];
      cbn [mbind py_bind mret py_ret] in *.
    all: assert (Hlen0 : length (assign_row (Z.of_nat (S (S n))) (Scalar 0))
                         = S (S n)) by (simpl; rewrite length_replicate; lia).
    all: specialize (Heq Hlen0);
      first [discriminate Heq | injection Heq as Heq; by rewrite Heq].
Qed.

Lemma boundary_distances_contribute_zero_witness :
  spline_energy_model (qc 6 1) 2 [[2; qc 7 2; qc 6 1]] (4 + 1)
    ((qc 6 1 - 2) / Qc_of_Z 4) 1 [2; qc 3 1; qc 4 1; qc 5 1; qc 6 1] =
  spline_energy_model (qc 6 1) 2
    (remove_boundary (qc 6 1) 2 <$> [[2; qc 7 2; qc 6 1]]) (4 + 1)
    ((qc 6 1 - 2) / Qc_of_Z 4) 1 [2; qc 3 1; qc 4 1; qc 5 1; qc 6 1].
Proof.
  apply (boundary_distances_contribute_zero (qc 6 1) 2 4
           [[2; qc 7 2; qc 6 1]] 1 [2; qc 3 1; qc 4 1; qc 5 1; qc 6 1]);
    [lia|by_compute|by_compute].
Defined.

(** ** No bounds check in the builder *)

Lemma spline_construction_inv (rows cols : Z) (dx : Qc) CDBA :
  spline_construction rows cols dx = inr CDBA → (1 ≤ rows ∧ 1 ≤ cols)%Z.
Proof.
  intros Hok.
  destruct (decide (rows < 0 ∨ cols < 0)%Z) as [Hneg|Hpos].
  { by rewrite spline_construction_neg in Hok. }
  destruct (decide (rows = 0)%Z) as [->|Hrows].
  { unfold spline_construction in Hok.
    destruct (build_C 0 cols); [done|]. destruct (build_D 0 cols dx); [done|].
    unfold build_B in Hok. rewrite np_zeros_ok in Hok by lia. done. }
  destruct (decide (cols = 0)%Z) as [->|Hcols]; [|lia].
  unfold spline_construction in Hok.
  destruct (build_C rows 0); [done|]. destruct (build_D rows 0 dx); [done|].
  destruct (build_B rows 0 dx); [done|].
  unfold build_A in Hok. rewrite np_zeros_ok in Hok by lia.
  cbn [mbind py_bind] in Hok.
  rewrite bool_decide_eq_true_2 in Hok by lia. done.
Qed.

(** The basis matrices of the grid with 4 segments and [dx = 1]. *)
Lemma spline_construction_4_5_1 :
  spline_construction 4 5 1 =
  inr ([[0; 1; 0; 0; 0]; [0; 0; 1; 0; 0]; [0; 0; 0; 1; 0]; [0; 0; 0; 0; 1]],
       [[- 1; 1; 0; 0; 0]; [0; - 1; 1; 0; 0]; [0; 0; - 1; 1; 0];
        [0; 0; 0; - 1; 1]],
       [[0; - qc 1 2; - 1; - 1; - qc 1 2]; [0; 0; - qc 1 2; - 1; - qc 1 2];
        [0; 0; 0; - qc 1 2; - qc 1 2]; [0; 0; 0; 0; 0]],
       [[0; qc 1 6; 1; qc 2 1; qc 4 3]; [0; 0; qc 1 6; 1; qc 5 6];
        [0; 0; 0; qc 1 6; qc 1 3]; [0; 0; 0; 0; 0]]).
Proof. by_compute. Qed.

(** C2.  The claim is right and the code misses it: no bounds check
    exists.  On the grid [2, 3, 4, 5, 6] the distance [r = Rmin = 2] passes
    the filter and resolves to index [0], outside [[1, cols - 1]]; the
    builder reads [A[-1]], [B[-1]], [D[-1]] and [C[-1]] by Python's
    wrap-around, raises nothing and stores the row of zeros.  The sibling
    [spline_eval012] resolves the same [r] to index [1], the segment whose
    row at [Rmin] is [A[0] - B[0] + C[0] / 2 - D[0] / 6], that is
    [[1/6, 1, 2, 3, 11/6]]; the same happens on the binary64 floats. *)
Theorem index_zero_not_rejected :
  let x := [2; qc 3 1; qc 4 1; qc 5 1; qc 6 1] in
  qualifying (qc 6 1) 2 [2] = [2] ∧
  model_index 2 2 1 = inr 0%Z ∧ ¬ (1 ≤ 0 ≤ 5 - 1)%Z ∧
  (∃ C D B A,
     spline_construction (5 - 1) 5 1 = inr (C, D, B, A) ∧
     py_index A (0 - 1) = inr [0; 0; 0; 0; 0] ∧
     py_index B (0 - 1) = inr [0; 0; 0; 0; 0] ∧
     (a0 ← py_index A 0; b0 ← py_index B 0; c0 ← py_index C 0;
      d0 ← py_index D 0;
      mret (vadd (vadd (vadd a0 (vscale b0 (2 - qc 3 1)))
                    (vdiv (vscale c0 ((2 - qc 3 1) ^ 2)) (qc 2 1)))
              (vdiv (vscale d0 ((2 - qc 3 1) ^ 3)) (qc 6 1))))
     = inr [qc 1 6; 1; 2; qc 3 1; qc 11 6]) ∧
  spline_energy_model (qc 6 1) 2 [[2]] 5 1 1 x = inr [[0; 0; 0; 0; 0]] ∧
  eval_index 2 2 1 = inr 1%Z ∧
  Binary64.model_index 2 2 1 = inr 0%Z ∧
  Binary64.spline_energy_model 6 2 [[2]%float] 5 1 1 [2; 3; 4; 5; 6]%float
    = inr [[0; 0; 0; 0; 0]%float].
Proof.
  cbv zeta. split_and!; try by_compute; try (vm_compute; reflexivity).
  eexists _, _, _, _. split; [apply spline_construction_4_5_1|].
  split_and!; by_compute.
Qed.

(** What becomes of an index that is never checked: with the matrices
    built for [cols >= 2] and [cols] knots in [x], an index in
    [[2 - cols, cols - 1]] is used as Python indexes and nothing is raised;
    any other index raises the [IndexError] of the array access. *)
Lemma model_index_unchecked (Rmin dx : Qc) (x : vec) (cols : Z) (u : ndval)
    (r : Qc) (i : Z) :
  (2 ≤ cols)%Z → Z.of_nat (length x) = cols →
  model_index r Rmin dx = inr i →
  ((2 - cols ≤ i ≤ cols - 1)%Z →
   ∃ u', (CDBA ← spline_construction (cols - 1) cols dx;
          pair_term Rmin dx x CDBA u r) = inr u') ∧
  (¬ (2 - cols ≤ i ≤ cols - 1)%Z →
   (CDBA ← spline_construction (cols - 1) cols dx;
    pair_term Rmin dx x CDBA u r) = inl IndexError).
Proof.
  intros Hcols Hx Hi.
  destruct (Z.to_nat cols) as [|[|n]] eqn:Hn; [lia|lia|].
  assert (cols = Z.of_nat (S (S n))) as -> by lia.
  replace (Z.of_nat (S (S n)) - 1)%Z with (Z.of_nat (S n)) by lia.
  destruct (spline_construction_ok n (S n) dx)
    as (C & D & B' & A' & -> & _ & _ & HsC & HsD & HsB & HsA).
  cbn [mbind py_bind]. rewrite pair_term_terms.
  pose proof (shape_snoc_zeros _ _ _ HsB) as HsB'.
  pose proof (shape_snoc_zeros _ _ _ HsA) as HsA'.
  split; intros Hrange.
  - destruct (pair_terms_in_range Rmin dx x _ _ _ _ (S n) (S (S n)) r i
                HsC HsD HsB' HsA') as [t ->]; [lia|done|lia|].
    by eexists.
  - rewrite (pair_terms_out_of_range Rmin dx x _ _ _ _ (S n) (S (S n)) r i
               HsC HsD HsB' HsA'); [done|lia|done|lia].
Qed.

Lemma model_index_unchecked_witness :
  (∃ u', (CDBA ← spline_construction (5 - 1) 5 1;
          pair_term 2 1 [2; qc 3 1; qc 4 1; qc 5 1; qc 6 1] CDBA (Scalar 0) 2)
         = inr u') ∧
  (CDBA ← spline_construction (5 - 1) 5 1;
   pair_term 2 1 [2; qc 3 1; qc 4 1; qc 5 1; qc 6 1] CDBA (Scalar 0) (qc 10 1))
  = inl IndexError.
Proof.
  split.
  - apply (model_index_unchecked 2 1 [2; qc 3 1; qc 4 1; qc 5 1; qc 6 1] 5
             (Scalar 0) 2 0); [lia|reflexivity|by_compute|lia].
  - apply (model_index_unchecked 2 1 [2; qc 3 1; qc 4 1; qc 5 1; qc 6 1] 5
             (Scalar 0) (qc 10 1) 8); [lia|reflexivity|by_compute|lia].
Defined.

(** ** Construction of a [Twobody] *)


(** C1, the claim as stated fails: with [Rcut = 1 <= Rmin = 2] the
    constructor raises nothing and returns the object. *)
Lemma init_accepts_Rcut_below_Rmin :
  (1 : Qc) ≤ 2 ∧
  succeeds (Twobody.init "AB" [[qc 3 2]] 1 1 2 (Some 2) None) = true.
Proof. split; [by_compute|by vm_compute]. Qed.

Lemma Qc_total_neq (a b : Qc) : a ≠ b → a < b ∨ b < a.
Proof.
  intros Hne. destruct (Qclt_le_dec a b) as [Hlt|Hle]; [by left|right].
  apply Qcle_lt_or_eq in Hle as [Hlt|Heq]; [done|by destruct Hne].
Qed.

(** For [Nknots >= 1], [Rcut] different from [Rmin] and [Nconfigs]
    configurations present in [Dismat], every step of [__init__]
    succeeds. *)
Lemma init_total (name : string) (Dismat : matrix)
    (Nconfigs : Z) (Rcut : Qc) (Nknots : Z) (Rmin : Qc) (Nswitch : option Z) :
  (1 ≤ Nknots)%Z → Rcut ≠ Rmin →
  (0 ≤ Nconfigs ≤ Z.of_nat (length Dismat))%Z →
  ∃ tb,
    Twobody.init name Dismat Nconfigs Rcut Nknots (Some Rmin) Nswitch =
      inr tb ∧
    Twobody.dx tb = (Rcut - Rmin) / Qc_of_Z Nknots ∧
    Twobody.cols tb = (Nknots + 1)%Z ∧
    np_linspace Rmin Rcut (Nknots + 1) = inr (Twobody.interval tb) ∧
    spline_construction Nknots (Nknots + 1) (Twobody.dx tb) =
      inr (Twobody.C tb, Twobody.D tb, Twobody.B tb, Twobody.A tb) ∧
    spline_energy_model Rcut Rmin Dismat (Nknots + 1) (Twobody.dx tb)
      Nconfigs (Twobody.interval tb) = inr (Twobody.v tb).
Proof.
  intros HN Hne Hsize. unfold Twobody.init, Twobody.get_v.
  cbn [mbind py_bind mret py_ret].
  rewrite bool_decide_eq_false_2 by lia. cbn [mbind py_bind mret py_ret].
  set (dx := (Rcut - Rmin) / Qc_of_Z Nknots).
  destruct (Z.to_nat Nknots) as [|n] eqn:Hn; [lia|].
  assert (HNk : Nknots = Z.of_nat (S n)) by lia.
  assert (HNne : Qc_of_Z Nknots ≠ 0) by by apply Qc_of_Z_neq0.
  assert (Hreach : Rcut = Rmin + Qc_of_Z Nknots * dx).
  { unfold dx. by field. }
  assert (Hdx : Rmin < Rcut → 0 < dx).
  { intros Hgt. unfold dx, Qcdiv.
    apply Qcmult_pos_pos; [by apply Qcminus_gt_0|].
    apply Qcinv_pos, Qc_of_Z_pos. lia. }
  clearbody dx. clear HNne Hn. subst Nknots.
  replace (Z.of_nat (S n) + 1 - 1)%Z with (Z.of_nat (S n)) by lia.
  replace (Z.of_nat (S n) + 1)%Z with (Z.of_nat (S (S n))) by lia.
  destruct (np_linspace_knots Rmin Rcut n) as (x & Hx & Hlen & _ & _).
  rewrite Hx. cbn [mbind py_bind mret py_ret].
  destruct (spline_construction_ok n (S n) dx)
    as (C & D & B' & A' & Hok & _).
  rewrite Hok. cbn [mbind py_bind mret py_ret].
  destruct (energy_model_total_grid Rcut Rmin Dismat (Z.of_nat (S (S n)))
              dx Nconfigs x) as [v Hv]; [lia|lia|done| |].
  { destruct (Qc_total_neq _ _ Hne) as [Hlt|Hgt]; [by left|right].
    split; [by apply Hdx|].
    replace (Z.of_nat (S (S n)) - 1)%Z with (Z.of_nat (S n)) by lia.
    rewrite <- Hreach. apply Qcle_refl. }
  rewrite Hv. cbn [mbind py_bind mret py_ret].
  eexists. split; [done|]. cbn. by split_and!.
Qed.

(** C1, amended.  [__init__] validates nothing.  [Nknots = 0] raises
    [ZeroDivisionError] and a negative [Nknots] the [ValueError] of a
    NumPy call; for [Nknots >= 1], [Rcut] different from [Rmin] (above or
    below it) and [Nconfigs] configurations present in [Dismat] the
    construction succeeds with [dx], [cols], the knot sequence, the basis
    matrices and [v] computed. *)
Theorem init_without_validation (name : string) (Dismat : matrix)
    (Nconfigs : Z) (Rcut : Qc) (Nknots : Z) (Rmin : Qc) (Nswitch : option Z) :
  ((Nknots = 0)%Z →
   Twobody.init name Dismat Nconfigs Rcut Nknots (Some Rmin) Nswitch =
     inl ZeroDivisionError) ∧
  ((Nknots < 0)%Z →
   Twobody.init name Dismat Nconfigs Rcut Nknots (Some Rmin) Nswitch =
     inl ValueError) ∧
  ((1 ≤ Nknots)%Z → Rcut ≠ Rmin →
   (0 ≤ Nconfigs ≤ Z.of_nat (length Dismat))%Z →
   ∃ tb,
     Twobody.init name Dismat Nconfigs Rcut Nknots (Some Rmin) Nswitch =
       inr tb ∧
     Twobody.dx tb = (Rcut - Rmin) / Qc_of_Z Nknots ∧
     Twobody.cols tb = (Nknots + 1)%Z ∧
     np_linspace Rmin Rcut (Nknots + 1) = inr (Twobody.interval tb) ∧
     spline_construction Nknots (Nknots + 1) (Twobody.dx tb) =
       inr (Twobody.C tb, Twobody.D tb, Twobody.B tb, Twobody.A tb) ∧
     spline_energy_model Rcut Rmin Dismat (Nknots + 1) (Twobody.dx tb)
       Nconfigs (Twobody.interval tb) = inr (Twobody.v tb)).
Proof.
  split_and!.
  - intros ->. done.
  - intros Hneg. unfold Twobody.init. cbn [mbind py_bind mret py_ret].
    rewrite bool_decide_eq_false_2 by lia. cbn [mbind py_bind mret py_ret].
    unfold np_linspace. case_bool_decide as Hcols; [done|].
    cbn [mbind py_bind mret py_ret].
    rewrite spline_construction_neg by lia. done.
  - apply init_total.
Qed.

Lemma init_without_validation_witness :
  ∃ tb,
    Twobody.init "AB" [[qc 3 2]] 1 1 2 (Some 2) None = inr tb ∧
    Twobody.dx tb = (1 - 2) / Qc_of_Z 2 ∧
    Twobody.cols tb = (2 + 1)%Z ∧
    np_linspace 2 1 (2 + 1) = inr (Twobody.interval tb) ∧
    spline_construction 2 (2 + 1) (Twobody.dx tb) =
      inr (Twobody.C tb, Twobody.D tb, Twobody.B tb, Twobody.A tb) ∧
    spline_energy_model 1 2 [[qc 3 2]] (2 + 1) (Twobody.dx tb) 1
      (Twobody.interval tb) = inr (Twobody.v tb).
Proof.
  apply (init_without_validation "AB" [[qc 3 2]] 1 1 2 2 None);
    [lia|by_compute|simpl; lia].
Defined.

(** C5.  The grid [Rmin = 2], [Rcut = 6], [Nknots = 4] has [dx = 1],
    [cols = 5], knots [[2, 3, 4, 5, 6]] and basis matrices of shape
    [(4, 5)], the ones of [spline_construction(4, 5, 1)]; the single
    distance [r = 3.5] resolves to index [2] with
    [delta = 3.5 - x[2] = -0.5], and the row of the design matrix is
    [A[1] + B[1] * (-0.5) + C[1] * 0.125 + D[1] * (-0.125 / 6)], that is
    [[0, 1/48, 25/48, 3/2, 13/12]]. *)
Theorem concrete_grid_scenario :
  let C1 := [0; 0; 1; 0; 0] in
  let D1 := [0; - 1; 1; 0; 0] in
  let B1 := [0; 0; - qc 1 2; - 1; - qc 1 2] in
  let A1 := [0; 0; qc 1 6; 1; qc 5 6] in
  ∃ tb,
    Twobody.init "AB" [[qc 7 2]] 1 (qc 6 1) 4 (Some 2) None = inr tb ∧
    Twobody.dx tb = 1 ∧ Twobody.cols tb = 5%Z ∧
    Twobody.interval tb = [2; qc 3 1; qc 4 1; qc 5 1; qc 6 1] ∧
    shape 4 5 (Twobody.C tb) ∧ shape 4 5 (Twobody.D tb) ∧
    shape 4 5 (Twobody.B tb) ∧ shape 4 5 (Twobody.A tb) ∧
    spline_construction 4 5 1 =
      inr (Twobody.C tb, Twobody.D tb, Twobody.B tb, Twobody.A tb) ∧
    model_index (qc 7 2) 2 1 = inr 2%Z ∧
    Twobody.interval tb !! 2%nat = Some (qc 4 1) ∧
    qc 7 2 - qc 4 1 = - qc 1 2 ∧
    Twobody.C tb !! 1%nat = Some C1 ∧ Twobody.D tb !! 1%nat = Some D1 ∧
    Twobody.B tb !! 1%nat = Some B1 ∧ Twobody.A tb !! 1%nat = Some A1 ∧
    Twobody.v tb =
      [vadd (vadd (vadd A1 (vscale B1 (- qc 1 2))) (vscale C1 (qc 1 8)))
            (vscale D1 (- qc 1 8 / qc 6 1))] ∧
    Twobody.v tb = [[0; qc 1 48; qc 25 48; qc 3 2; qc 13 12]].
Proof.
  intros C1 D1 B1 A1.
  destruct (init_total "AB" [[qc 7 2]] 1 (qc 6 1) 4 2 None)
    as (tb & Hinit & Hdx & Hcols & Hint & HCDBA & Hv);
    [lia|by_compute|simpl; lia|].
  assert (Hdx1 : Twobody.dx tb = 1) by (rewrite Hdx; by_compute).
  rewrite Hdx1 in HCDBA, Hv. change (4 + 1)%Z with 5%Z in *.
  assert (Hx : np_linspace 2 (qc 6 1) 5 =
               inr [2; qc 3 1; qc 4 1; qc 5 1; qc 6 1]) by by_compute.
  rewrite Hint in Hx. injection Hx as Hx. rewrite Hx in Hv.
  rewrite spline_construction_4_5_1 in HCDBA.
  injection HCDBA as HC HD HB HA.
  assert (Hrow : spline_energy_model (qc 6 1) 2 [[qc 7 2]] 5 1 1
                   [2; qc 3 1; qc 4 1; qc 5 1; qc 6 1] =
                 inr [[0; qc 1 48; qc 25 48; qc 3 2; qc 13 12]])
    by by_compute.
  rewrite Hv in Hrow. injection Hrow as Hrow.
  exists tb. rewrite <- HC, <- HD, <- HB, <- HA, Hx, Hrow.
  split_and!; first [assumption | unfold shape; by_compute].
Qed.

(** * Further properties of the code *)

(** ** [spline_construction]: outcome on every input *)

Lemma last_snoc_zeros (M : matrix) (z : vec) : last (M ++ [z]) = Some z.
Proof. apply last_snoc. Qed.

(** X1.  A negative dimension is the [ValueError] of [np.zeros]; a zero
    dimension the [IndexError] of [np.delete] (no row) or of
    [A[row][cols - 1]] (no column); in every other case the four matrices
    are returned, all of shape [(rows, cols)], and the last row of [B] and
    of [A] is the appended row of zeros. *)
Theorem spline_construction_outcome (rows cols : Z) (dx : Qc) :
  ((rows < 0 ∨ cols < 0)%Z →
   spline_construction rows cols dx = inl ValueError) ∧
  ((0 ≤ rows)%Z → (0 ≤ cols)%Z → (rows = 0 ∨ cols = 0)%Z →
   spline_construction rows cols dx = inl IndexError) ∧
  ((1 ≤ rows)%Z → (1 ≤ cols)%Z →
   ∃ C D B A,
     spline_construction rows cols dx = inr (C, D, B, A) ∧
     shape (Z.to_nat rows) (Z.to_nat cols) C ∧
     shape (Z.to_nat rows) (Z.to_nat cols) D ∧
     shape (Z.to_nat rows) (Z.to_nat cols) B ∧
     shape (Z.to_nat rows) (Z.to_nat cols) A ∧
     last B = Some (np_zeros1 cols) ∧ last A = Some (np_zeros1 cols)).
Proof.
  split_and!.
  - apply spline_construction_neg.
  - intros Hrows Hcols Hzero. unfold spline_construction.
    assert (rows = Z.of_nat (Z.to_nat rows)) as -> by lia.
    assert (cols = Z.of_nat (Z.to_nat cols)) as -> by lia.
    rewrite build_C_ok, build_D_ok. cbn [mbind py_bind].
    destruct (Z.to_nat rows) as [|n] eqn:Hn.
    + unfold build_B. rewrite np_zeros_ok by lia. done.
    + destruct (build_B_ok n (Z.to_nat cols) dx) as (B' & -> & _).
      cbn [mbind py_bind]. unfold build_A. rewrite np_zeros_ok by lia.
      cbn [mbind py_bind]. rewrite bool_decide_eq_true_2 by lia. done.
  - intros Hrows Hcols.
    destruct (Z.to_nat rows) as [|n] eqn:Hn; [lia|].
    destruct (Z.to_nat cols) as [|m] eqn:Hm; [lia|].
    assert (rows = Z.of_nat (S n)) as -> by lia.
    assert (cols = Z.of_nat (S m)) as -> by lia.
    destruct (spline_construction_ok n m dx)
      as (C & D & B' & A' & Hok & _ & _ & HsC & HsD & HsB & HsA).
    eexists C, D, _, _. split; [exact Hok|].
    split_and!; try done; try (by apply shape_snoc_zeros);
      apply last_snoc_zeros.
Qed.

Lemma spline_construction_outcome_witness :
  spline_construction (-1) 0 1 = inl ValueError ∧
  spline_construction 0 1 1 = inl IndexError ∧
  ∃ C D B A,
    spline_construction 2 3 (qc 1 2) = inr (C, D, B, A) ∧
    shape 2 3 C ∧ shape 2 3 D ∧ shape 2 3 B ∧ shape 2 3 A ∧
    last B = Some (np_zeros1 3) ∧ last A = Some (np_zeros1 3).
Proof.
  split_and!.
  - apply (spline_construction_outcome (-1) 0 1). lia.
  - apply (spline_construction_outcome 0 1 1); lia.
  - apply (spline_construction_outcome 2 3 (qc 1 2)); lia.
Defined.

(** ** [spline_construction]: dependence on the grid spacing *)

Lemma vscale_1 (l : vec) : vscale l 1 = l.
Proof.
  unfold vscale. induction l as [|y l IH]; [done|].
  rewrite fmap_cons, IH. by rewrite Qcmult_1_r.
Qed.

Lemma vdiv_1 (l : vec) : vdiv l 1 = l.
Proof.
  unfold vdiv. induction l as [|y l IH]; [done|].
  rewrite fmap_cons, IH. f_equal. unfold Qcdiv. by field.
Qed.

Lemma mscale_1 (M : matrix) : mscale M 1 = M.
Proof.
  unfold mscale. induction M as [|r M IH]; [done|].
  by rewrite fmap_cons, IH, vscale_1.
Qed.

Lemma mdiv_1 (M : matrix) : mdiv M 1 = M.
Proof.
  unfold mdiv. induction M as [|r M IH]; [done|].
  by rewrite fmap_cons, IH, vdiv_1.
Qed.

Lemma build_D_spacing (rows cols : Z) (dx : Qc) :
  build_D rows cols dx = (D ← build_D rows cols 1; mret (mdiv D dx)).
Proof.
  unfold build_D. destruct (np_zeros rows cols) as [e|M]; [done|].
  cbn [mbind py_bind mret py_ret]. by rewrite mdiv_1.
Qed.

Lemma build_B_spacing (rows cols : Z) (dx : Qc) :
  build_B rows cols dx = (B ← build_B rows cols 1; mret (mscale B dx)).
Proof.
  unfold build_B. destruct (np_zeros rows cols) as [e|M]; [done|].
  cbn [mbind py_bind mret py_ret].
  destruct (np_delete0 _) as [e|M']; [done|].
  cbn [mbind py_bind mret py_ret]. by rewrite mscale_1.
Qed.

Lemma build_A_spacing (rows cols : Z) (dx : Qc) :
  build_A rows cols dx =
  (A ← build_A rows cols 1; mret (mscale (mscale A dx) dx)).
Proof.
  unfold build_A. destruct (np_zeros rows cols) as [e|M]; [done|].
  cbn [mbind py_bind mret py_ret].
  case_bool_decide; [done|]. cbn [mbind py_bind mret py_ret].
  destruct (np_delete0 _) as [e|M']; [done|].
  cbn [mbind py_bind mret py_ret]. by rewrite !mscale_1.
Qed.

(** X2.  The spacing enters only as a factor: with [(C, D, B, A)] the
    matrices of spacing [1], those of a spacing [dx <> 0] are [C],
    [D / dx], [B * dx] and [A * dx * dx], and the construction fails for
    [dx] exactly as it does for spacing [1]. *)
Theorem spline_construction_spacing (rows cols : Z) (dx : Qc) :
  dx ≠ 0 →
  spline_construction rows cols dx =
  ('(C, D, B, A) ← spline_construction rows cols 1;
   mret (C, mdiv D dx, mscale B dx, mscale (mscale A dx) dx)).
Proof.
  intros _. unfold spline_construction.
  rewrite (build_D_spacing rows cols dx), (build_B_spacing rows cols dx),
    (build_A_spacing rows cols dx).
  destruct (build_C rows cols) as [e|C]; [done|].
  destruct (build_D rows cols 1) as [e|D]; [done|].
  destruct (build_B rows cols 1) as [e|B]; [done|].
  destruct (build_A rows cols 1) as [e|A]; done.
Qed.

Lemma spline_construction_spacing_witness :
  spline_construction 2 3 (qc 1 2) =
  ('(C, D, B, A) ← spline_construction 2 3 1;
   mret (C, mdiv D (qc 1 2), mscale B (qc 1 2),
         mscale (mscale A (qc 1 2)) (qc 1 2))).
Proof. apply (spline_construction_spacing 2 3 (qc 1 2)). by_compute. Defined.

(** ** [spline_construction]: the entries of [B] *)

Lemma entry_snoc (M : matrix) (z : vec) (i j : nat) :
  entry (M ++ [z]) i j =
  if bool_decide (i < length M)%nat then entry M i j
  else if bool_decide (i = length M) then z !! j else None.
Proof.
  unfold entry. case_bool_decide as Hi.
  - by rewrite lookup_app_l.
  - rewrite lookup_app_r by lia. case_bool_decide as Hi'.
    + subst i. by rewrite Nat.sub_diag.
    + destruct (i - length M)%nat as [|k] eqn:Hk; [lia|]. done.
Qed.

Lemma entry_mscale (M : matrix) (s : Qc) (i j : nat) :
  entry (mscale M s) i j = (λ y, y * s) <$> entry M i j.
Proof. apply (entry_fmap (λ y, y * s)). Qed.

Lemma entry_tail (r : vec) (M : matrix) (i j : nat) :
  entry M i j = entry (r :: M) (S i) j.
Proof. done. Qed.

Lemma lookup_np_zeros1 (m j : nat) :
  (j < m)%nat → np_zeros1 (Z.of_nat m) !! j = Some 0.
Proof.
  intros Hj. unfold np_zeros1. rewrite Nat2Z.id. by apply lookup_replicate_2.
Qed.

(** X3.  For [rows >= 1]: row [i] of [B] is row [i + 1] of the masked
    array, times [dx], and the last row is zero. *)
Theorem spline_construction_B_entries (rows cols : Z) (dx : Qc) C D B A :
  spline_construction rows cols dx = inr (C, D, B, A) →
  ∀ i j, (i < Z.to_nat rows)%nat → (j < Z.to_nat cols)%nat →
    entry B i j = Some (B_entry (Z.to_nat rows) (Z.to_nat cols) dx i j).
Proof.
  intros Hok i j Hi Hj.
  destruct (spline_construction_inv _ _ _ _ Hok) as [Hrows Hcols].
  destruct (Z.to_nat rows) as [|n] eqn:Hn; [lia|].
  assert (rows = Z.of_nat (S n)) as -> by lia.
  remember (Z.to_nat cols) as m eqn:Hm.
  assert (cols = Z.of_nat m) as Hc by lia. clear Hm. subst cols.
  unfold spline_construction in Hok.
  rewrite build_C_ok, build_D_ok in Hok. cbn [mbind py_bind] in Hok.
  destruct (build_B (Z.of_nat (S n)) (Z.of_nat m) dx) as [e|B1] eqn:HB;
    [done|].
  cbn [mbind py_bind] in Hok.
  destruct (build_A (Z.of_nat (S n)) (Z.of_nat m) dx) as [e|A1]; [done|].
  injection Hok as _ _ <- _. clear C D A A1.
  unfold build_B in HB. rewrite np_zeros_ok in HB by lia.
  cbn [mbind py_bind] in HB. rewrite Nat2Z.id in HB.
  set (B0 := mask_set _ _ (mask_set _ _ (mask_set _ _ _))) in HB.
  assert (HB0 : ∀ i' j', (i' < S n)%nat → (j' < m)%nat →
            entry B0 i' j' =
            Some (if bool_decide (S j' = m) then - qc 1 2
                  else if bool_decide (i' < j')%nat then - 1
                  else if bool_decide (i' = j') then - qc 1 2 else 0)).
  { intros i' j' Hi' Hj'. unfold B0.
    rewrite !entry_mask_set, entry_zeros by lia. simpl. f_equal.
    repeat case_bool_decide; (done || lia). }
  assert (HsB0 : shape (S n) m B0).
  { unfold B0. do 3 apply shape_mask_set. apply shape_zeros. }
  destruct B0 as [|r0 B0']; [by destruct HsB0|].
  cbn in HB. injection HB as <-. unfold np_vstack_zeros.
  rewrite mscale_vstack_zeros, entry_snoc.
  assert (Hlen : length (mscale B0' dx) = n).
  { unfold mscale. rewrite length_fmap. destruct HsB0 as [Hl _].
    simpl in Hl. lia. }
  rewrite Hlen. unfold B_entry. case_bool_decide as Hin.
  - rewrite entry_mscale, (entry_tail r0), HB0 by lia. simpl.
    by rewrite (bool_decide_eq_false_2 (S i = S n)) by lia.
  - rewrite (bool_decide_eq_true_2 (i = n)) by lia.
    rewrite (bool_decide_eq_true_2 (S i = S n)) by lia.
    by apply lookup_np_zeros1.
Qed.

Lemma spline_construction_B_entries_witness :
  entry [[0; - qc 1 2; - 1; - 1; - qc 1 2]; [0; 0; - qc 1 2; - 1; - qc 1 2];
         [0; 0; 0; - qc 1 2; - qc 1 2]; [0; 0; 0; 0; 0]] 0 2 =
  Some (B_entry (Z.to_nat 4) (Z.to_nat 5) 1 0 2).
Proof.
  apply (spline_construction_B_entries 4 5 1 _ _ _ _
           spline_construction_4_5_1 0%nat 2%nat); simpl; lia.
Defined.

(** ** [spline_construction]: the entries of [A] *)

Lemma entry_mset (M : matrix) (r c : Z) (val : Qc) (i j : nat) (old : Qc) :
  (0 ≤ r)%Z → (0 ≤ c)%Z → entry M i j = Some old →
  entry (mset M r c val) i j =
  Some (if bool_decide (Z.of_nat i = r ∧ Z.of_nat j = c) then val else old).
Proof.
  intros Hr Hc. unfold entry, mset.
  destruct (M !! i) as [row|] eqn:Hrow; [|done]. simpl. intros Hold.
  destruct (decide (Z.to_nat r = i)) as [Hri|Hri].
  - subst i. rewrite list_lookup_alter_eq, Hrow. simpl.
    destruct (decide (Z.to_nat c = j)) as [Hcj|Hcj].
    + subst j. rewrite list_lookup_insert_eq by by eapply lookup_lt_Some.
      by rewrite bool_decide_eq_true_2 by lia.
    + rewrite list_lookup_insert_ne by done.
      by rewrite bool_decide_eq_false_2 by lia.
  - rewrite list_lookup_alter_ne, Hrow by done. simpl.
    by rewrite bool_decide_eq_false_2 by lia.
Qed.

Lemma A_inner_value_idem (row : Z) (j : nat) (old : Qc) :
  A_inner_value row j (A_inner_value row j old) = A_inner_value row j old.
Proof. unfold A_inner_value. by repeat case_bool_decide. Qed.

Lemma entry_A_inner (row : Z) (M : matrix) (c : Z) (i j : nat) (old : Qc) :
  (0 ≤ row)%Z → (0 ≤ c)%Z → entry M i j = Some old →
  entry (A_inner row M c) i j =
  Some (if bool_decide (Z.of_nat i = row ∧ Z.of_nat j = c)
        then A_inner_value row j old else old).
Proof.
  intros Hrow Hc Hold. unfold A_inner, A_inner_value.
  destruct (bool_decide (row = c)) eqn:Hrc;
    [apply bool_decide_eq_true_1 in Hrc|apply bool_decide_eq_false_1 in Hrc];
  destruct (bool_decide (c > row)%Z) eqn:Hgt;
    [apply bool_decide_eq_true_1 in Hgt|apply bool_decide_eq_false_1 in Hgt
    |apply bool_decide_eq_true_1 in Hgt|apply bool_decide_eq_false_1 in Hgt];
    try lia.
  - rewrite (entry_mset M row c _ i j old) by done. f_equal.
    repeat case_bool_decide; (done || lia).
  - rewrite (entry_mset M row c _ i j old) by done. f_equal.
    repeat case_bool_decide; try (done || lia).
    f_equal. lia.
  - rewrite Hold. f_equal. repeat case_bool_decide; (done || lia).
Qed.

Lemma entry_foldl_A_inner (row : Z) (l : list Z) :
  ∀ (M : matrix) (i j : nat) (old : Qc),
    (0 ≤ row)%Z → Forall (λ c, 0 ≤ c)%Z l → entry M i j = Some old →
    entry (foldl (A_inner row) M l) i j =
    Some (if bool_decide (Z.of_nat i = row ∧ Z.of_nat j ∈ l)
          then A_inner_value row j old else old).
Proof.
  induction l as [|c l IH]; intros M i j old Hrow Hl Hold.
  - simpl. rewrite Hold. f_equal. rewrite bool_decide_eq_false_2; [done|].
    intros [_ Hin]. by apply elem_of_nil in Hin.
  - apply Forall_cons in Hl as [Hc Hl]. simpl.
    rewrite (IH _ i j _ Hrow Hl (entry_A_inner row M c i j old Hrow Hc Hold)).
    f_equal.
    destruct (decide (Z.of_nat i = row)) as [Hi|Hi].
    2:{ rewrite !bool_decide_eq_false_2; tauto. }
    destruct (decide (Z.of_nat j = c)) as [Hj|Hj].
    + rewrite (bool_decide_eq_true_2 (_ ∧ Z.of_nat j = c)) by done.
      rewrite (bool_decide_eq_true_2 (_ ∧ Z.of_nat j ∈ c :: l)).
      2:{ split; [done|]. rewrite Hj. apply elem_of_cons. by left. }
      case_bool_decide; [apply A_inner_value_idem|done].
    + rewrite (bool_decide_eq_false_2 (_ ∧ Z.of_nat j = c)) by tauto.
      rewrite (bool_decide_ext (Z.of_nat i = row ∧ Z.of_nat j ∈ c :: l)
                 (Z.of_nat i = row ∧ Z.of_nat j ∈ l)); [done|].
      rewrite elem_of_cons. tauto.
Qed.

Lemma elem_of_py_range_down (n c : Z) :
  c ∈ py_range_down n ↔ (0 ≤ c ≤ n)%Z.
Proof.
  unfold py_range_down. rewrite elem_of_reverse, elem_of_seqZ. lia.
Qed.

Lemma py_range_down_nonneg (n : Z) : Forall (λ c, 0 ≤ c)%Z (py_range_down n).
Proof.
  apply Forall_forall. intros c Hc. apply elem_of_py_range_down in Hc. lia.
Qed.

Lemma py_range_down_S (k : nat) :
  py_range_down (Z.of_nat (S k) - 1) =
  Z.of_nat k :: py_range_down (Z.of_nat k - 1).
Proof.
  unfold py_range_down.
  replace (Z.of_nat (S k) - 1 + 1)%Z with (Z.of_nat (S k)) by lia.
  replace (Z.of_nat k - 1 + 1)%Z with (Z.of_nat k) by lia.
  by rewrite seqZ_S, reverse_snoc.
Qed.

(** One pass of the outer loop rewrites row [row] and advances [tmp]. *)
Lemma entry_A_outer (cols : Z) (M : matrix) (t : Qc) (row : Z) (i j : nat)
    (old : Qc) :
  (0 ≤ row)%Z → (Z.of_nat j < cols)%Z → entry M i j = Some old →
  entry (A_outer cols (M, t) row).1 i j =
  Some (if bool_decide (Z.of_nat i = row)
        then (if bool_decide (Z.of_nat j = cols - 1)%Z then t
              else A_inner_value row j old)
        else old).
Proof.
  intros Hrow Hj Hold. unfold A_outer. cbn [fst].
  rewrite (entry_foldl_A_inner row _ _ i j _ Hrow (py_range_down_nonneg _)
             (entry_mset M row (cols - 1) t i j old Hrow ltac:(lia) Hold)).
  f_equal.
  destruct (decide (Z.of_nat i = row)) as [Hi|Hi].
  2:{ rewrite !bool_decide_eq_false_2; tauto. }
  rewrite (bool_decide_eq_true_2 (Z.of_nat i = row)) by done.
  destruct (decide (Z.of_nat j = cols - 1)%Z) as [Hlast|Hlast].
  - rewrite (bool_decide_eq_true_2 (Z.of_nat j = cols - 1)%Z) by done.
    rewrite bool_decide_eq_false_2.
    2:{ rewrite elem_of_py_range_down. lia. }
    by rewrite bool_decide_eq_true_2.
  - rewrite (bool_decide_eq_false_2 (Z.of_nat j = cols - 1)%Z) by done.
    rewrite bool_decide_eq_true_2.
    2:{ rewrite elem_of_py_range_down. lia. }
    by rewrite bool_decide_eq_false_2 by tauto.
Qed.

Lemma A_outer_tmp (cols : Z) (M : matrix) (t : Qc) (row : Z) :
  (A_outer cols (M, t) row).2 = t + qc 1 2.
Proof. done. Qed.

(** The outer loop over the rows [k - 1, ..., 0]: row [i < k] receives
    [tmp] of its iteration in the last column and the values of the inner
    loop elsewhere; the other rows are untouched. *)
Lemma entry_foldl_A_outer (cols : Z) (k : nat) :
  ∀ (M : matrix) (t : Qc) (i j : nat) (old : Qc),
    (Z.of_nat j < cols)%Z → entry M i j = Some old →
    entry (foldl (A_outer cols) (M, t) (py_range_down (Z.of_nat k - 1))).1 i j =
    Some (if bool_decide (i < k)%nat
          then (if bool_decide (Z.of_nat j = cols - 1)%Z
                then t + Qc_of_Z (Z.of_nat k - 1 - Z.of_nat i) * qc 1 2
                else A_inner_value (Z.of_nat i) j old)
          else old).
Proof.
  induction k as [|k IH]; intros M t i j old Hj Hold.
  - change (py_range_down (Z.of_nat 0 - 1)) with (@nil Z). cbn [foldl fst].
    rewrite Hold. by rewrite (bool_decide_eq_false_2 (i < 0)%nat) by lia.
  - rewrite py_range_down_S. cbn [foldl].
    pose proof (entry_A_outer cols M t (Z.of_nat k) i j old ltac:(lia) Hj Hold)
      as Hstep.
    pose proof (A_outer_tmp cols M t (Z.of_nat k)) as Htmp.
    destruct (A_outer cols (M, t) (Z.of_nat k)) as [M1 t1].
    cbn [fst snd] in Hstep, Htmp. subst t1.
    rewrite (IH M1 _ i j _ Hj Hstep). f_equal.
    destruct (decide (i < k)%nat) as [Hlt|Hge].
    + rewrite (bool_decide_eq_true_2 (i < k)%nat) by done.
      rewrite (bool_decide_eq_true_2 (i < S k)%nat) by lia.
      rewrite (bool_decide_eq_false_2 (Z.of_nat i = Z.of_nat k)) by lia.
      destruct (bool_decide (Z.of_nat j = (cols - 1)%Z)); [|reflexivity].
      replace (Z.of_nat (S k) - 1 - Z.of_nat i)%Z
        with (Z.of_nat k - 1 - Z.of_nat i + 1)%Z by lia.
      rewrite Z2Qc_inj_add, Z2Qc_inj_1. ring.
    + rewrite (bool_decide_eq_false_2 (i < k)%nat) by done.
      destruct (decide (i = k)) as [->|Hne].
      * rewrite (bool_decide_eq_true_2 (Z.of_nat k = Z.of_nat k)) by done.
        rewrite (bool_decide_eq_true_2 (k < S k)%nat) by lia.
        destruct (bool_decide (Z.of_nat j = (cols - 1)%Z)); [|reflexivity].
        replace (Z.of_nat (S k) - 1 - Z.of_nat k)%Z with 0%Z by lia.
        rewrite Z2Qc_inj_0. ring.
      * rewrite (bool_decide_eq_false_2 (Z.of_nat i = Z.of_nat k)) by lia.
        by rewrite (bool_decide_eq_false_2 (i < S k)%nat) by lia.
Qed.

(** X4.  For [rows >= 1]: row [i] of [A] is row [i + 1] of the array
    filled by the two loops, times [dx * dx]: in the last column
    [1/3 + (rows - 2 - i) / 2], on the first super-diagonal [1/6], above
    it [j - i - 1], elsewhere [0]; the last row is zero. *)
Theorem spline_construction_A_entries (rows cols : Z) (dx : Qc) C D B A :
  spline_construction rows cols dx = inr (C, D, B, A) →
  ∀ i j, (i < Z.to_nat rows)%nat → (j < Z.to_nat cols)%nat →
    entry A i j = Some (A_entry (Z.to_nat rows) (Z.to_nat cols) dx i j).
Proof.
  intros Hok i j Hi Hj.
  destruct (spline_construction_inv _ _ _ _ Hok) as [Hrows Hcols].
  destruct (Z.to_nat rows) as [|n] eqn:Hn; [lia|].
  assert (rows = Z.of_nat (S n)) as -> by lia.
  remember (Z.to_nat cols) as m eqn:Hm.
  assert (cols = Z.of_nat m) as Hc by lia. clear Hm. subst cols.
  unfold spline_construction in Hok.
  rewrite build_C_ok, build_D_ok in Hok. cbn [mbind py_bind] in Hok.
  destruct (build_B (Z.of_nat (S n)) (Z.of_nat m) dx) as [e|B1]; [done|].
  cbn [mbind py_bind] in Hok.
  destruct (build_A (Z.of_nat (S n)) (Z.of_nat m) dx) as [e|A1] eqn:HA;
    [done|].
  injection Hok as _ _ _ <-. clear C D B B1.
  unfold build_A in HA. rewrite np_zeros_ok in HA by lia.
  cbn [mbind py_bind] in HA. rewrite bool_decide_eq_false_2 in HA by lia.
  cbn [mbind py_bind mret py_ret] in HA. rewrite Nat2Z.id in HA.
  set (A0 := (foldl _ _ _).1) in HA.
  assert (HA0 : ∀ i' j', (i' < S n)%nat → (j' < m)%nat →
            entry A0 i' j' =
            Some (if bool_decide (Z.of_nat j' = Z.of_nat m - 1)%Z
                  then qc 1 3 + Qc_of_Z (Z.of_nat (S n) - 1 - Z.of_nat i') * qc 1 2
                  else A_inner_value (Z.of_nat i') j' 0)).
  { intros i' j' Hi' Hj'. unfold A0.
    rewrite (entry_foldl_A_outer (Z.of_nat m) (S n) _ _ i' j' 0);
      [|lia|by apply entry_zeros].
    by rewrite (bool_decide_eq_true_2 (i' < S n)%nat) by done. }
  assert (HsA0 : shape (S n) m A0).
  { unfold A0. apply shape_foldl_A_outer. simpl. apply shape_zeros. }
  destruct A0 as [|r0 A0']; [by destruct HsA0|].
  cbn in HA. injection HA as <-. unfold np_vstack_zeros.
  rewrite !mscale_vstack_zeros, entry_snoc.
  assert (Hlen : length (mscale (mscale A0' dx) dx) = n).
  { unfold mscale. rewrite !length_fmap. destruct HsA0 as [Hl _].
    simpl in Hl. lia. }
  rewrite Hlen. unfold A_entry. case_bool_decide as Hin.
  - rewrite !entry_mscale, (entry_tail r0), HA0 by lia. simpl.
    rewrite (bool_decide_eq_false_2 (S i = S n)) by lia. f_equal.
    unfold A_inner_value.
    replace (Z.of_nat (S n) - 1 - Z.of_nat (S i))%Z
      with (Z.of_nat (S n) - 2 - Z.of_nat i)%Z by lia.
    replace (Z.of_nat j - Z.of_nat (S i))%Z
      with (Z.of_nat j - Z.of_nat i - 1)%Z by lia.
    repeat case_bool_decide; first [reflexivity | lia].
  - rewrite (bool_decide_eq_true_2 (i = n)) by lia.
    rewrite (bool_decide_eq_true_2 (S i = S n)) by lia.
    by apply lookup_np_zeros1.
Qed.

Lemma spline_construction_A_entries_witness :
  entry [[0; qc 1 6; 1; qc 2 1; qc 4 3]; [0; 0; qc 1 6; 1; qc 5 6];
         [0; 0; 0; qc 1 6; qc 1 3]; [0; 0; 0; 0; 0]] 0 4 =
  Some (A_entry (Z.to_nat 4) (Z.to_nat 5) 1 0 4).
Proof.
  apply (spline_construction_A_entries 4 5 1 _ _ _ _
           spline_construction_4_5_1 0%nat 4%nat); simpl; lia.
Defined.

(** ** [spline_eval012]: which segment is evaluated *)

Lemma np_ceil_bracket (q : Qc) :
  Qc_of_Z (np_ceil q - 1) < q ∧ q ≤ Qc_of_Z (np_ceil q).
Proof.
  unfold np_ceil, Qclt, Qcle. rewrite !this_Qc_of_Z.
  split; [apply Qceiling_lt|apply Qle_ceiling].
Qed.

Lemma eval_index_above (r Rmin dx : Qc) :
  0 < dx → Rmin < r →
  ∃ k, eval_index r Rmin dx = inr k ∧ (1 ≤ k)%Z ∧
       Rmin + Qc_of_Z (k - 1) * dx < r ∧ r ≤ Rmin + Qc_of_Z k * dx.
Proof.
  intros Hdx Hr.
  destruct (eval_index_from_Rmin r Rmin dx Hdx (Qclt_le_weak _ _ Hr))
    as (k & Hk & Hge & _).
  exists k. split_and!; [done|done|..].
  - unfold eval_index in Hk. rewrite bool_decide_eq_false_2 in Hk.
    2:{ intros ->. by apply Qclt_not_eq in Hr. }
    rewrite bool_decide_eq_false_2 in Hk by by apply Qclt_neq0.
    injection Hk as <-.
    destruct (np_ceil_bracket ((r - Rmin) / dx)) as [Hlo _].
    apply Qcdiv_gt_iff in Hlo; [|done].
    apply (Qcplus_lt_mono_l _ _ Rmin) in Hlo.
    by replace (Rmin + (r - Rmin)) with r in Hlo by ring.
  - unfold eval_index in Hk. rewrite bool_decide_eq_false_2 in Hk.
    2:{ intros ->. by apply Qclt_not_eq in Hr. }
    rewrite bool_decide_eq_false_2 in Hk by by apply Qclt_neq0.
    injection Hk as <-.
    destruct (np_ceil_bracket ((r - Rmin) / dx)) as [_ Hhi].
    apply Qcdiv_le_iff in Hhi; [|done]. by apply Qcminus_le_iff.
Qed.

(** X5.  In exact arithmetic (the quotient [(r - Rmin) / dx] not
    rounded), above [Rmin] the evaluator resolves the segment whose right
    knot is the first one not below [r]: the index [k] satisfies
    [Rmin + (k - 1) * dx < r <= Rmin + k * dx], so the local offset
    [r - (Rmin + k * dx)] lies in [(-dx, 0]]. *)
Theorem eval_index_bracket (r Rmin dx : Qc) :
  0 < dx → Rmin < r →
  ∃ k, eval_index r Rmin dx = inr k ∧ (1 ≤ k)%Z ∧
       Rmin + Qc_of_Z (k - 1) * dx < r ∧ r ≤ Rmin + Qc_of_Z k * dx.
Proof. apply eval_index_above. Qed.

Lemma eval_index_bracket_witness :
  ∃ k, eval_index (qc 7 2) 2 1 = inr k ∧ (1 ≤ k)%Z ∧
       2 + Qc_of_Z (k - 1) * 1 < qc 7 2 ∧ qc 7 2 ≤ 2 + Qc_of_Z k * 1.
Proof. apply (eval_index_bracket (qc 7 2) 2 1); by_compute. Defined.

(** X6.  In exact arithmetic (the quotient [(r - Rmin) / dx] not
    rounded), beyond the last knot of a grid with [N + 1] knots the
    evaluator neither extrapolates nor raises its [ValueError]: the access
    [x[index]] raises [IndexError]. *)
Theorem spline_eval012_beyond_last_knot (a b c d : vec)
    (r Rcut Rmin dx : Qc) (x : vec) (N : nat) :
  0 < dx → length x = S N → Rmin + Qc_of_Z (Z.of_nat N) * dx < r →
  spline_eval012 a b c d r Rcut Rmin dx x = inl IndexError.
Proof.
  intros Hdx Hx Hr.
  assert (Hgt : Rmin < r).
  { eapply Qcle_lt_trans; [|exact Hr].
    rewrite <- (Qcplus_0_r Rmin) at 1. apply Qcplus_le_mono_l.
    apply Qcmult_nonneg_nonneg; [|by apply Qclt_le_weak].
    pose proof (proj1 (Z2Qc_inj_le 0 (Z.of_nat N)) ltac:(lia)) as H0.
    by rewrite Z2Qc_inj_0 in H0. }
  destruct (eval_index_above r Rmin dx Hdx Hgt) as (k & Hk & Hge & _ & Hhi).
  assert (HkN : (Z.of_nat N < k)%Z).
  { apply Z2Qc_inj_lt. apply (Qcmult_lt_mono_pos_r _ _ dx Hdx).
    apply (Qcplus_lt_mono_l _ _ Rmin). by eapply Qclt_le_trans. }
  unfold spline_eval012. rewrite Hk. cbn [mbind py_bind].
  rewrite bool_decide_eq_true_2 by done.
  rewrite (py_index_out x k) by lia. done.
Qed.

Lemma spline_eval012_beyond_last_knot_witness :
  spline_eval012 [1; 2] [qc 3 1; qc 4 1] [qc 5 1; qc 6 1] [qc 7 1; qc 8 1]
    (qc 9 2) (qc 4 1) 2 1 [2; qc 3 1; qc 4 1] = inl IndexError.
Proof.
  apply (spline_eval012_beyond_last_knot _ _ _ _ (qc 9 2) (qc 4 1) 2 1
           [2; qc 3 1; qc 4 1] 2); [by_compute|reflexivity|by_compute].
Defined.

(** X7.  At [r == Rmin] no quotient is formed: segment 1 is evaluated at
    the offset [Rmin - x[1]] whatever [dx] is, whereas any other [r] with
    [dx = 0] is a [ZeroDivisionError]. *)
Theorem spline_eval012_at_Rmin (a b c d : vec) (r Rcut Rmin dx : Qc) (x : vec)
    (x1 a0 b0 c0 d0 : Qc) :
  x !! 1%nat = Some x1 → a !! 0%nat = Some a0 → b !! 0%nat = Some b0 →
  c !! 0%nat = Some c0 → d !! 0%nat = Some d0 →
  (let dr := Rmin - x1 in
   spline_eval012 a b c d Rmin Rcut Rmin dx x =
     inr (a0 + dr * (b0 + dr * (qc 1 2 * c0 + d0 * dr / qc 3 1)),
          b0 + dr * (c0 + qc 1 2 * d0 * dr),
          c0 + d0 * dr)) ∧
  (r ≠ Rmin → spline_eval012 a b c d r Rcut Rmin 0 x = inl ZeroDivisionError).
Proof.
  intros Hx Ha Hb Hc Hd. split.
  - unfold spline_eval012, eval_index.
    rewrite bool_decide_eq_true_2 by done. cbn [mbind py_bind mret py_ret].
    rewrite bool_decide_eq_true_2 by lia.
    rewrite (py_index_nonneg x 1 x1), (py_index_nonneg a (1 - 1) a0),
      (py_index_nonneg b (1 - 1) b0), (py_index_nonneg c (1 - 1) c0),
      (py_index_nonneg d (1 - 1) d0) by (done || lia).
    done.
  - intros Hr. unfold spline_eval012, eval_index.
    rewrite bool_decide_eq_false_2 by done.
    by rewrite bool_decide_eq_true_2 by done.
Qed.

Lemma spline_eval012_at_Rmin_witness :
  spline_eval012 [1; 2] [qc 3 1; qc 4 1] [qc 5 1; qc 6 1] [qc 7 1; qc 8 1]
    2 (qc 4 1) 2 0 [2; qc 3 1; qc 4 1] =
  inr (1 + (2 - qc 3 1) *
             (qc 3 1 + (2 - qc 3 1) *
                (qc 1 2 * qc 5 1 + qc 7 1 * (2 - qc 3 1) / qc 3 1)),
       qc 3 1 + (2 - qc 3 1) * (qc 5 1 + qc 1 2 * qc 7 1 * (2 - qc 3 1)),
       qc 5 1 + qc 7 1 * (2 - qc 3 1)).
Proof.
  apply (spline_eval012_at_Rmin [1; 2] [qc 3 1; qc 4 1] [qc 5 1; qc 6 1]
           [qc 7 1; qc 8 1] 0 (qc 4 1) 2 0 [2; qc 3 1; qc 4 1]
           (qc 3 1) 1 (qc 3 1) (qc 5 1) (qc 7 1)); reflexivity.
Defined.

(** ** [spline_eval012]: the three values on one segment *)

Lemma qc_1_2_inv : qc 1 2 = / (1 + 1).
Proof. by_compute. Qed.

Lemma two_neq_0 : (1 + 1 : Qc) ≠ 0.
Proof. by_compute. Qed.

(** X8.  For two points resolved to the same segment, the second value is
    the derivative of the first derivative in the exact sense that the
    difference of the [f1] is the step times the mean of the [f2], and the
    [f2] differ by [d[index - 1]] times the step. *)
Theorem spline_eval012_derivatives (a b c d : vec) (r r' Rcut Rmin dx : Qc)
    (x : vec) (i : Z) (f0 f1 f2 f0' f1' f2' : Qc) :
  eval_index r Rmin dx = inr i → eval_index r' Rmin dx = inr i →
  spline_eval012 a b c d r Rcut Rmin dx x = inr (f0, f1, f2) →
  spline_eval012 a b c d r' Rcut Rmin dx x = inr (f0', f1', f2') →
  f1' - f1 = (r' - r) * ((f2 + f2') * qc 1 2) ∧
  ∃ di, py_index d (i - 1) = inr di ∧ f2' - f2 = di * (r' - r).
Proof.
  intros Hi Hi' Hr Hr'.
  assert (Hge : (1 ≤ i)%Z).
  { unfold spline_eval012 in Hr. rewrite Hi in Hr. cbn [mbind py_bind] in Hr.
    by case_bool_decide. }
  destruct (spline_eval012_branch a b c d r Rcut Rmin dx x i Hi Hge)
    as [Herr|(xi & ai & bi & ci & di & Hx & Ha & Hb & Hc & Hd & Hv)];
    [congruence|].
  destruct (spline_eval012_branch a b c d r' Rcut Rmin dx x i Hi' Hge)
    as [Herr|(xi' & ai' & bi' & ci' & di' & Hx' & Ha' & Hb' & Hc' & Hd' & Hv')];
    [congruence|].
  rewrite Hx in Hx'. rewrite Ha in Ha'. rewrite Hb in Hb'.
  rewrite Hc in Hc'. rewrite Hd in Hd'.
  injection Hx' as <-. injection Ha' as <-. injection Hb' as <-.
  injection Hc' as <-. injection Hd' as <-.
  rewrite Hr in Hv. rewrite Hr' in Hv'.
  injection Hv as -> -> ->. injection Hv' as -> -> ->.
  split.
  - rewrite qc_1_2_inv. field. apply two_neq_0.
  - exists di. split; [done|]. ring.
Qed.

Lemma spline_eval012_derivatives_witness :
  qc 107 50 - qc 11 8 = (qc 14 5 - qc 5 2) * ((qc 3 2 + qc 18 5) * qc 1 2) ∧
  ∃ di, py_index [qc 7 1; qc 8 1] (1 - 1) = inr di ∧
        qc 18 5 - qc 3 2 = di * (qc 14 5 - qc 5 2).
Proof.
  apply (spline_eval012_derivatives [1; 2] [qc 3 1; qc 4 1] [qc 5 1; qc 6 1]
           [qc 7 1; qc 8 1] (qc 5 2) (qc 14 5) (qc 4 1) 2 1
           [2; qc 3 1; qc 4 1] 1 (- qc 1 6) (qc 11 8) (qc 3 2)
           (qc 361 750) (qc 107 50) (qc 18 5)); by_compute.
Defined.

(** ** [spline_energy_model]: the rounded segment index *)








(** ** [spline_energy_model]: the accumulation as a sum *)

Lemma vadd_comm (u w : vec) : vadd u w = vadd w u.
Proof.
  unfold vadd. revert w. induction u as [|a u IH]; intros [|b w]; simpl;
    try done.
  by rewrite IH, Qcplus_comm.
Qed.

Lemma construction_terms_lengths (cols : Z) (dx : Qc) CDBA :
  spline_construction (cols - 1) cols dx = inr CDBA →
  (2 ≤ cols)%Z ∧
  ∀ Rmin x r t, pair_terms Rmin dx x CDBA r = inr t →
    length t.1.1.1 = Z.to_nat cols ∧ length t.1.1.2 = Z.to_nat cols ∧
    length t.1.2 = Z.to_nat cols ∧ length t.2 = Z.to_nat cols.
Proof.
  intros Hok. destruct (spline_construction_inv _ _ _ _ Hok) as [Hrows _].
  split; [lia|].
  destruct (Z.to_nat cols) as [|[|n]] eqn:Hn; [lia|lia|].
  assert (cols = Z.of_nat (S (S n))) as -> by lia.
  replace (Z.of_nat (S (S n)) - 1)%Z with (Z.of_nat (S n)) in Hok by lia.
  destruct (spline_construction_ok n (S n) dx)
    as (C & D & B' & A' & Hok' & _ & _ & HsC & HsD & HsB & HsA).
  rewrite Hok' in Hok. injection Hok as <-.
  intros Rmin x r t Ht.
  pose proof (shape_snoc_zeros _ _ _ HsB) as HsB1.
  pose proof (shape_snoc_zeros _ _ _ HsA) as HsA1.
  exact (pair_terms_lengths Rmin dx x C D _ _ (S n) (S (S n)) r t
           HsC HsD HsB1 HsA1 Ht).
Qed.

Section accumulator.
Variables (Rmin dx : Qc) (x : vec) (cols : Z).
Variable CDBA : matrix * matrix * matrix * matrix.
Hypothesis Hcols : (0 ≤ cols)%Z.
Hypothesis Hterms : ∀ r t, pair_terms Rmin dx x CDBA r = inr t →
  length t.1.1.1 = Z.to_nat cols ∧ length t.1.1.2 = Z.to_nat cols ∧
  length t.1.2 = Z.to_nat cols ∧ length t.2 = Z.to_nat cols.

Lemma length_terms_sum r t :
  pair_terms Rmin dx x CDBA r = inr t → length (terms_sum t) = Z.to_nat cols.
Proof.
  intros (Ha & Hb & Hc & Hd)%Hterms. unfold terms_sum.
  rewrite !length_vadd. lia.
Qed.

(** One distance adds the sum of its four terms to the row the
    accumulator stands for. *)
Lemma pair_term_sum (u : ndval) (r : Qc) :
  pair_term Rmin dx x CDBA u r =
  (t ← pair_terms Rmin dx x CDBA r;
   mret (Array (vadd (assign_row cols u) (terms_sum t)))).
Proof.
  rewrite pair_term_terms.
  destruct (pair_terms Rmin dx x CDBA r) as [e|t] eqn:Et; [done|].
  cbn [mbind py_bind mret py_ret]. f_equal.
  destruct (Hterms r t Et) as (Ha & _).
  rewrite (add_terms_assign cols) by lia.
  unfold terms_sum. by rewrite !vadd_assoc.
Qed.

Lemma length_assign_scalar (q : Qc) :
  length (assign_row cols (Scalar q)) = Z.to_nat cols.
Proof. simpl. by rewrite length_replicate. Qed.

Lemma foldM_pair_term_length (l : vec) : ∀ u w,
  length (assign_row cols u) = Z.to_nat cols →
  foldM (pair_term Rmin dx x CDBA) u l = inr w →
  length (assign_row cols w) = Z.to_nat cols.
Proof.
  induction l as [|r l IH]; intros u w Hu Hrun.
  - by injection Hrun as <-.
  - cbn [foldM] in Hrun. apply bind_succeeds in Hrun as (u1 & H1 & Hrun).
    apply (IH u1 w); [|done].
    rewrite pair_term_sum in H1.
    apply bind_succeeds in H1 as (t & Ht & H1). injection H1 as <-.
    simpl. rewrite length_vadd, (length_terms_sum r t Ht). lia.
Qed.

(** Accumulating the same distances from two starting values whose rows
    differ by [base] ends in rows that differ by [base]. *)
Lemma foldM_pair_term_shift (l : vec) : ∀ (u u0 w w0 : ndval) (base : vec),
  assign_row cols u = vadd base (assign_row cols u0) →
  foldM (pair_term Rmin dx x CDBA) u l = inr w →
  foldM (pair_term Rmin dx x CDBA) u0 l = inr w0 →
  assign_row cols w = vadd base (assign_row cols w0).
Proof.
  induction l as [|r l IH]; intros u u0 w w0 base Hu Hrun Hrun0.
  - injection Hrun as <-. by injection Hrun0 as <-.
  - cbn [foldM] in Hrun, Hrun0.
    apply bind_succeeds in Hrun as (u1 & H1 & Hrun).
    apply bind_succeeds in Hrun0 as (u1' & H1' & Hrun0).
    apply (IH u1 u1' w w0 base); [|done|done].
    rewrite pair_term_sum in H1, H1'.
    apply bind_succeeds in H1 as (t & Ht & H1).
    apply bind_succeeds in H1' as (t' & Ht' & H1').
    assert (t' = t) as -> by congruence.
    injection H1 as <-. injection H1' as <-. simpl.
    by rewrite Hu, vadd_assoc.
Qed.

(** The stored row does not depend on the order of the distances. *)
Lemma stored_row_Permutation (l l' : vec) :
  l ≡ₚ l' → ∀ u row,
  stored_row cols (foldM (pair_term Rmin dx x CDBA) u l) = inr row →
  stored_row cols (foldM (pair_term Rmin dx x CDBA) u l') = inr row.
Proof.
  induction 1 as [|r l l' Hp IH|r1 r2 l|l l' l'' Hp IH Hp' IH'];
    intros u row Hrun.
  - done.
  - cbn [foldM] in *.
    destruct (pair_term Rmin dx x CDBA u r) as [e|u1]; [done|].
    cbn [mbind py_bind] in *. by apply IH.
  - cbn [foldM] in *. rewrite pair_term_sum in *.
    destruct (pair_terms Rmin dx x CDBA r2) as [e|t2] eqn:E2; [done|].
    cbn [mbind py_bind mret py_ret] in *. rewrite pair_term_sum in *.
    destruct (pair_terms Rmin dx x CDBA r1) as [e|t1] eqn:E1; [done|].
    cbn [mbind py_bind mret py_ret] in *. rewrite pair_term_sum, E2.
    cbn [mbind py_bind mret py_ret assign_row] in *.
    replace (vadd (vadd (assign_row cols u) (terms_sum t1)) (terms_sum t2))
      with (vadd (vadd (assign_row cols u) (terms_sum t2)) (terms_sum t1));
      [done|].
    rewrite !vadd_assoc. f_equal. apply vadd_comm.
  - by apply IH', IH.
Qed.
End accumulator.

(** ** [spline_energy_model]: the matrix as a whole *)

Lemma foldM_impl {A B} (f g : B → A → py B) (l : list A) : ∀ (b c : B),
  (∀ b a c, a ∈ l → f b a = inr c → g b a = inr c) →
  foldM f b l = inr c → foldM g b l = inr c.
Proof.
  induction l as [|a l IH]; intros b c Hfg Hrun; [done|].
  cbn [foldM] in *. apply bind_succeeds in Hrun as (b1 & H1 & Hrun).
  rewrite (Hfg b a b1); [|apply elem_of_cons; by left|done].
  cbn [mbind py_bind]. apply IH; [|done].
  intros b' a' c' Ha'. apply Hfg. apply elem_of_cons. by right.
Qed.

Lemma foldM_app {A B} (f : B → A → py B) (l1 l2 : list A) (b : B) :
  foldM f b (l1 ++ l2) = (b1 ← foldM f b l1; foldM f b1 l2).
Proof.
  revert b. induction l1 as [|a l1 IH]; intros b; [done|].
  cbn [foldM app]. destruct (f b a) as [e|b1]; [done|].
  cbn [mbind py_bind]. apply IH.
Qed.

Lemma stored_row_inr (cols : Z) (m : py ndval) (row : vec) :
  stored_row cols m = inr row ↔ ∃ u, m = inr u ∧ assign_row cols u = row.
Proof.
  unfold stored_row. destruct m as [e|u]; cbn [mbind py_bind mret py_ret].
  - split; [done|]. by intros (? & ? & _).
  - split.
    + intros [= <-]. by exists u.
    + intros (u' & [= <-] & <-). done.
Qed.

Lemma energy_model_shape (Rcut Rmin : Qc) (df : matrix) (cols : Z)
    (dx : Qc) (size : Z) (x : vec) (v : matrix) :
  spline_energy_model Rcut Rmin df cols dx size x = inr v →
  shape (Z.to_nat size) (Z.to_nat cols) v.
Proof.
  intros Hrun.
  apply energy_model_rows in Hrun as (CDBA & Hok & Hlen & Hrows).
  destruct (construction_terms_lengths cols dx CDBA Hok) as [Hcols Hterms].
  split; [done|]. apply Forall_lookup. intros k row Hk.
  destruct (Hrows k) as (r & u & _ & Hu & Hvk).
  { apply lookup_lt_Some in Hk. lia. }
  assert (row = assign_row cols u) as -> by congruence.
  apply (foldM_pair_term_length Rmin dx x cols CDBA (Hterms Rmin x)
           (qualifying Rcut Rmin r) (Scalar 0) u); [|exact Hu].
  apply length_assign_scalar.
Qed.

(** X11.  [v] has [size] rows of [cols] entries. *)
Theorem design_matrix_shape (Rcut Rmin : Qc) (df : matrix) (cols : Z)
    (dx : Qc) (size : Z) (x : vec) (v : matrix) :
  spline_energy_model Rcut Rmin df cols dx size x = inr v →
  shape (Z.to_nat size) (Z.to_nat cols) v.
Proof. apply energy_model_shape. Qed.

Lemma design_matrix_shape_witness :
  shape (Z.to_nat 2) (Z.to_nat 5)
    [[0; 0; 0; 0; 0]; [0; qc 1 48; qc 25 48; qc 3 2; qc 13 12]].
Proof.
  apply (design_matrix_shape (qc 6 1) 2 [[1; qc 7 1]; [qc 7 2]] 5 1 2
           [2; qc 3 1; qc 4 1; qc 5 1; qc 6 1]).
  by_compute.
Defined.

(** X12.  Each row of [v] is the design matrix of its configuration taken
    alone: the rows do not influence one another. *)
Theorem design_matrix_row_by_row (Rcut Rmin : Qc) (df : matrix) (cols : Z)
    (dx : Qc) (size : Z) (x : vec) (v : matrix) (k : nat) (row : vec) :
  spline_energy_model Rcut Rmin df cols dx size x = inr v →
  (k < Z.to_nat size)%nat → df !! k = Some row →
  ∃ vk, spline_energy_model Rcut Rmin [row] cols dx 1 x = inr [vk] ∧
        v !! k = Some vk.
Proof.
  intros Hrun Hk Hrow.
  apply energy_model_rows in Hrun as (CDBA & Hok & Hlen & Hrows).
  destruct (Hrows k Hk) as (row' & u & Hrow' & Hu & Hvk).
  assert (row' = row) as -> by congruence.
  exists (assign_row cols u). split; [|done].
  rewrite energy_model_single, Hok. cbn [mbind py_bind].
  by rewrite Hu.
Qed.

Lemma design_matrix_row_by_row_witness :
  ∃ vk, spline_energy_model (qc 6 1) 2 [[qc 7 2]] 5 1 1
          [2; qc 3 1; qc 4 1; qc 5 1; qc 6 1] = inr [vk] ∧
        [[0; 0; 0; 0; 0]; [0; qc 1 48; qc 25 48; qc 3 2; qc 13 12]] !! 1%nat
          = Some vk.
Proof.
  apply (design_matrix_row_by_row (qc 6 1) 2 [[1; qc 7 1]; [qc 7 2]] 5 1 2
           [2; qc 3 1; qc 4 1; qc 5 1; qc 6 1] _ 1%nat [qc 7 2]);
    [by_compute|simpl; lia|reflexivity].
Defined.

(** X13.  Additivity for arbitrary lists: the row of the concatenation of
    two distance lists is the elementwise sum of their rows, whether or not
    the distances qualify. *)
Theorem design_row_concat (Rcut Rmin : Qc) (cols : Z) (dx : Qc) (x : vec)
    (l1 l2 row1 row2 : vec) :
  spline_energy_model Rcut Rmin [l1] cols dx 1 x = inr [row1] →
  spline_energy_model Rcut Rmin [l2] cols dx 1 x = inr [row2] →
  spline_energy_model Rcut Rmin [l1 ++ l2] cols dx 1 x =
    inr [vadd row1 row2].
Proof.
  rewrite !energy_model_single.
  destruct (spline_construction (cols - 1) cols dx) as [e|CDBA] eqn:Hok;
    [done|].
  destruct (construction_terms_lengths cols dx CDBA Hok) as [Hcols Hterms].
  cbn [mbind py_bind]. intros H1 H2.
  apply bind_succeeds in H1 as (u1 & Hu1 & H1).
  apply bind_succeeds in H2 as (u2 & Hu2 & H2).
  injection H1 as <-. injection H2 as <-.
  unfold qualifying, accumulate in *. rewrite filter_app, foldM_app, Hu1.
  cbn [mbind py_bind].
  pose proof (foldM_pair_term_length Rmin dx x cols CDBA (Hterms Rmin x)
                (filter (λ i, i ≤ Rcut ∧ Rmin ≤ i) l1) (Scalar 0) u1
                (length_assign_scalar cols 0) Hu1) as Hlen1.
  destruct (accumulate_total Rmin dx x CDBA
              (filter (λ i, i ≤ Rcut ∧ Rmin ≤ i) l2) u1) as [w Hw].
  { clear -Hu2. revert Hu2. generalize (Scalar 0).
    induction (filter _ l2) as [|r l IH]; intros u Hu; [constructor|].
    cbn [foldM] in Hu. apply bind_succeeds in Hu as (u' & Hr & Hu).
    constructor; [|by eapply IH].
    rewrite pair_term_terms in Hr.
    apply bind_succeeds in Hr as (t & Ht & _). by exists t. }
  rewrite Hw. cbn [mbind py_bind mret py_ret]. do 2 f_equal.
  apply (foldM_pair_term_shift Rmin dx x cols CDBA (Hterms Rmin x)
           (filter (λ i, i ≤ Rcut ∧ Rmin ≤ i) l2) u1 (Scalar 0) w u2);
    [|exact Hw|exact Hu2].
  simpl. rewrite vadd_zeros_r; [done|lia].
Qed.

Lemma design_row_concat_witness :
  spline_energy_model (qc 6 1) 2 [[1; qc 7 2] ++ [qc 9 2; qc 7 1]] 5 1 1
    [2; qc 3 1; qc 4 1; qc 5 1; qc 6 1] =
  inr [vadd [0; qc 1 48; qc 25 48; qc 3 2; qc 13 12]
            [0; 0; qc 1 48; qc 25 48; qc 7 12]].
Proof.
  apply (design_row_concat (qc 6 1) 2 5 1 [2; qc 3 1; qc 4 1; qc 5 1; qc 6 1]
           [1; qc 7 2] [qc 9 2; qc 7 1]); by_compute.
Defined.

(** X14.  The design matrix does not depend on the order in which the
    distances of a configuration are listed. *)
Theorem design_matrix_permutation (Rcut Rmin : Qc) (df df' : matrix)
    (cols : Z) (dx : Qc) (size : Z) (x : vec) (v : matrix) :
  Forall2 Permutation df df' →
  spline_energy_model Rcut Rmin df cols dx size x = inr v →
  spline_energy_model Rcut Rmin df' cols dx size x = inr v.
Proof.
  intros Hperm. unfold spline_energy_model.
  destruct (spline_construction (cols - 1) cols dx) as [e|CDBA] eqn:Hok;
    [done|].
  destruct (construction_terms_lengths cols dx CDBA Hok) as [Hcols Hterms].
  cbn [mbind py_bind]. destruct (np_zeros size cols) as [e|v0]; [done|].
  cbn [mbind py_bind]. rewrite py_range_seq.
  apply foldM_impl. intros w k w' Hk Hstep.
  apply list_elem_of_fmap in Hk as (kn & -> & _).
  rewrite config_row_of_nat in *.
  destruct (df !! kn) as [row|] eqn:Hrow; [|done].
  destruct (Forall2_lookup_l _ _ _ _ _ Hperm Hrow) as (row' & -> & Hrr').
  apply bind_succeeds in Hstep as (u & Hu & Hstep). injection Hstep as <-.
  assert (Hq : qualifying Rcut Rmin row ≡ₚ qualifying Rcut Rmin row').
  { unfold qualifying. by rewrite Hrr'. }
  pose proof (stored_row_Permutation Rmin dx x cols CDBA (Hterms Rmin x)
                _ _ Hq (Scalar 0) (assign_row cols u)) as Hst.
  rewrite !stored_row_inr in Hst.
  destruct Hst as (u' & Hu' & Heq); [by exists u|].
  unfold accumulate. rewrite Hu'. cbn [mbind py_bind mret py_ret].
  by rewrite Heq.
Qed.

Lemma design_matrix_permutation_witness :
  spline_energy_model (qc 6 1) 2 [[qc 9 2; qc 7 2]] 5 1 1
    [2; qc 3 1; qc 4 1; qc 5 1; qc 6 1] =
  inr [[0; qc 1 48; qc 13 24; qc 97 48; qc 5 3]].
Proof.
  apply (design_matrix_permutation (qc 6 1) 2 [[qc 7 2; qc 9 2]]
           [[qc 9 2; qc 7 2]] 5 1 1 [2; qc 3 1; qc 4 1; qc 5 1; qc 6 1]).
  - apply Forall2_cons. split.
    + apply Permutation_swap.
    + apply Forall2_nil_2.
  - by_compute.
Defined.

Lemma qualifying_idemp (Rcut Rmin : Qc) (row : vec) :
  qualifying Rcut Rmin (qualifying Rcut Rmin row) = qualifying Rcut Rmin row.
Proof.
  unfold qualifying. rewrite list_filter_filter. apply list_filter_iff. tauto.
Qed.

(** X15.  Distances outside [[Rmin, Rcut]] take no part at all: dropping
    them from [df] changes neither the matrix nor the exception. *)
Theorem design_matrix_ignores_outside (Rcut Rmin : Qc) (df : matrix)
    (cols : Z) (dx : Qc) (size : Z) (x : vec) :
  spline_energy_model Rcut Rmin df cols dx size x =
  spline_energy_model Rcut Rmin (qualifying Rcut Rmin <$> df) cols dx size x.
Proof.
  unfold spline_energy_model.
  destruct (spline_construction (cols - 1) cols dx) as [e|CDBA]; [done|].
  cbn [mbind py_bind]. destruct (np_zeros size cols) as [e|v0]; [done|].
  cbn [mbind py_bind]. apply foldM_ext. intros v k. unfold config_row.
  rewrite py_index_fmap. destruct (py_index df k) as [e|row]; [done|].
  cbn [mbind py_bind mret py_ret]. by rewrite qualifying_idemp.
Qed.

(** ** [spline_energy_model]: the number of configurations *)

(** X16.  A negative [size] is the [ValueError] of [np.zeros]; on a grid
    that processes every qualifying distance, a [size] beyond the rows of
    [df] is the [IndexError] of [df[config, :]]. *)
Theorem design_matrix_size_errors (Rcut Rmin : Qc) (df : matrix) (cols : Z)
    (dx : Qc) (size : Z) (x : vec) :
  (2 ≤ cols)%Z →
  ((size < 0)%Z →
   spline_energy_model Rcut Rmin df cols dx size x = inl ValueError) ∧
  (Z.of_nat (length x) = cols →
   Rcut < Rmin ∨ (0 < dx ∧ Rcut ≤ Rmin + Qc_of_Z (cols - 1) * dx) →
   (Z.of_nat (length df) < size)%Z →
   spline_energy_model Rcut Rmin df cols dx size x = inl IndexError).
Proof.
  intros Hcols.
  destruct (Z.to_nat cols) as [|[|n]] eqn:Hn; [lia|lia|].
  assert (cols = Z.of_nat (S (S n))) as -> by lia.
  unfold spline_energy_model.
  replace (Z.of_nat (S (S n)) - 1)%Z with (Z.of_nat (S n)) by lia.
  destruct (spline_construction_ok n (S n) dx)
    as (C & D & B' & A' & Hok & _ & _ & HsC & HsD & HsB & HsA).
  rewrite Hok. cbn [mbind py_bind]. split.
  - intros Hneg. by rewrite np_zeros_neg by lia.
  - intros Hx Hgrid Hsize. rewrite np_zeros_ok by lia. cbn [mbind py_bind].
    rewrite py_range_seq.
    generalize (replicate (Z.to_nat size) (np_zeros1 (Z.of_nat (S (S n))))).
    intros v0.
    replace (Z.to_nat size)
      with (length df + S (Z.to_nat size - length df - 1))%nat by lia.
    rewrite seq_app, fmap_app, foldM_app.
    destruct (config_loop_total Rcut Rmin df (Z.of_nat (S (S n))) dx x
                (C, D, B' ++ [np_zeros1 (Z.of_nat (S (S n)))],
                 A' ++ [np_zeros1 (Z.of_nat (S (S n)))])
                (length df) 0 v0) as [v' Hv'].
    { intros k Hk.
      destruct (lookup_lt_is_Some_2 df k) as [row Hrow]; [lia|].
      exists row. split; [done|]. apply Forall_forall. intros r Hr.
      apply qualifying_spec in Hr as [_ [Hlo Hhi]].
      destruct Hgrid as [Hempty|[Hdx Hreach]].
      - exfalso. apply (Qclt_not_le _ _ Hempty). by etrans.
      - destruct (model_index_within r Rmin dx (Z.of_nat (S n))
                    Hdx Hlo) as (i & Hi & Hrange); [by etrans|].
        pose proof (shape_snoc_zeros _ _ _ HsB) as HsB1.
        pose proof (shape_snoc_zeros _ _ _ HsA) as HsA1.
        apply (pair_terms_in_range Rmin dx x C D _ _ (S n) (S (S n)) r i
                 HsC HsD HsB1 HsA1); [lia|done|lia]. }
    rewrite Hv'. cbn [mbind py_bind].
    change (seq (0 + length df) (S (Z.to_nat size - length df - 1)))
      with ((0 + length df)%nat
              :: seq (S (0 + length df)) (Z.to_nat size - length df - 1)).
    rewrite fmap_cons. cbn [foldM]. rewrite Nat.add_0_l, config_row_of_nat.
    by rewrite lookup_ge_None_2 by lia.
Qed.

Lemma design_matrix_size_errors_witness :
  spline_energy_model (qc 6 1) 2 [[qc 7 2]] 5 1 (-1)
    [2; qc 3 1; qc 4 1; qc 5 1; qc 6 1] = inl ValueError ∧
  spline_energy_model (qc 6 1) 2 [[qc 7 2]] 5 1 2
    [2; qc 3 1; qc 4 1; qc 5 1; qc 6 1] = inl IndexError.
Proof.
  split.
  - apply (design_matrix_size_errors (qc 6 1) 2 [[qc 7 2]] 5 1 (-1)
             [2; qc 3 1; qc 4 1; qc 5 1; qc 6 1]); lia.
  - apply (design_matrix_size_errors (qc 6 1) 2 [[qc 7 2]] 5 1 2
             [2; qc 3 1; qc 4 1; qc 5 1; qc 6 1]);
      [lia|reflexivity|right; split; by_compute|simpl; lia].
Defined.

(** ** [spline_energy_model]: a distance on a knot *)

(** X17.  A distance that sits exactly on knot [k >= 1] has [delta = 0]:
    the terms of [B], [C] and [D] vanish and its row of the design matrix
    is row [k - 1] of [A]. *)
Theorem design_row_at_knot (Rcut Rmin : Qc) (cols : Z) (dx : Qc) (x : vec)
    (k : Z) (r : Qc) C D B A :
  dx ≠ 0 → spline_construction (cols - 1) cols dx = inr (C, D, B, A) →
  (1 ≤ k ≤ cols - 1)%Z → r - Rmin = Qc_of_Z k * dx →
  py_index x k = inr r → Rmin ≤ r ≤ Rcut →
  ∃ ak, py_index A (k - 1) = inr ak ∧
        spline_energy_model Rcut Rmin [[r]] cols dx 1 x = inr [ak].
Proof.
  intros Hdx Hok Hk Hr Hxk [Hlo Hhi].
  destruct (Z.to_nat cols) as [|[|n]] eqn:Hn; [lia|lia|].
  assert (cols = Z.of_nat (S (S n))) as -> by lia. clear Hn.
  rewrite energy_model_single, Hok. cbn [mbind py_bind].
  replace (Z.of_nat (S (S n)) - 1)%Z with (Z.of_nat (S n)) in * by lia.
  destruct (spline_construction_ok n (S n) dx)
    as (C0 & D0 & B' & A' & Hok' & _ & _ & HsC & HsD & HsB & HsA).
  rewrite Hok' in Hok. injection Hok as HC HD HB HA. subst C D B A.
  pose proof (shape_snoc_zeros _ _ _ HsB) as HsB1.
  pose proof (shape_snoc_zeros _ _ _ HsA) as HsA1.
  set (Bm := B' ++ _) in *. set (Am := A' ++ _) in *.
  destruct (py_index_in Am (k - 1)) as (ak & Hak & Hina);
    [destruct HsA1; lia|].
  destruct (py_index_in Bm (k - 1)) as (bk & Hbk & Hinb);
    [destruct HsB1; lia|].
  destruct (py_index_in D0 (k - 1)) as (dk & Hdk & Hind); [destruct HsD; lia|].
  destruct (py_index_in C0 (k - 1)) as (ck & Hck & Hinc); [destruct HsC; lia|].
  assert (Hla : length ak = S (S n)).
  { destruct HsA1 as [_ HF]. by apply (proj1 (Forall_forall _ _) HF). }
  assert (Hlb : length bk = S (S n)).
  { destruct HsB1 as [_ HF]. by apply (proj1 (Forall_forall _ _) HF). }
  assert (Hld : length dk = S (S n)).
  { destruct HsD as [_ HF]. by apply (proj1 (Forall_forall _ _) HF). }
  assert (Hlc : length ck = S (S n)).
  { destruct HsC as [_ HF]. by apply (proj1 (Forall_forall _ _) HF). }
  exists ak. split; [done|].
  unfold qualifying. rewrite filter_cons_True by done. rewrite filter_nil.
  unfold accumulate. cbn [foldM]. unfold pair_term.
  rewrite (model_index_Rcut r Rmin dx k Hdx Hr). cbn [mbind py_bind].
  rewrite Hxk. cbn [mbind py_bind]. rewrite Hak. cbn [mbind py_bind].
  rewrite Hbk. cbn [mbind py_bind]. rewrite Hdk. cbn [mbind py_bind].
  rewrite Hck. cbn [mbind py_bind mret py_ret assign_row].
  replace (r - r) with (0 : Qc) by ring.
  rewrite !Qcpower_0 by lia. rewrite !vscale_0, !vdiv_zeros.
  cbn [nd_add]. rewrite fmap_plus_0.
  rewrite (vadd_zeros_r ak (length bk)) by lia.
  rewrite (vadd_zeros_r ak (length ck)) by lia.
  by rewrite (vadd_zeros_r ak (length dk)) by lia.
Qed.

Lemma design_row_at_knot_witness :
  ∃ ak,
    py_index [[0; qc 1 6; 1; qc 2 1; qc 4 3]; [0; 0; qc 1 6; 1; qc 5 6];
              [0; 0; 0; qc 1 6; qc 1 3]; [0; 0; 0; 0; 0]] (2 - 1) = inr ak ∧
    spline_energy_model (qc 6 1) 2 [[qc 4 1]] 5 1 1
      [2; qc 3 1; qc 4 1; qc 5 1; qc 6 1] = inr [ak].
Proof.
  apply (design_row_at_knot (qc 6 1) 2 5 1 [2; qc 3 1; qc 4 1; qc 5 1; qc 6 1]
           2 (qc 4 1)
           [[0; 1; 0; 0; 0]; [0; 0; 1; 0; 0]; [0; 0; 0; 1; 0]; [0; 0; 0; 0; 1]]
           [[- 1; 1; 0; 0; 0]; [0; - 1; 1; 0; 0]; [0; 0; - 1; 1; 0];
            [0; 0; 0; - 1; 1]]
           [[0; - qc 1 2; - 1; - 1; - qc 1 2]; [0; 0; - qc 1 2; - 1; - qc 1 2];
            [0; 0; 0; - qc 1 2; - qc 1 2]; [0; 0; 0; 0; 0]]);
    [by_compute|by_compute|lia|by_compute|by_compute|split; by_compute].
Defined.

(** ** [Twobody]: the constructed object *)

Lemma np_linspace_uniform (start stop : Qc) (n : nat) (x : vec) :
  np_linspace start stop (Z.of_nat (S (S n))) = inr x →
  length x = S (S n) ∧
  ∀ k, (k ≤ S n)%nat →
    x !! k = Some (start + Qc_of_Z (Z.of_nat k)
                             * ((stop - start) / Qc_of_Z (Z.of_nat (S n)))).
Proof.
  unfold np_linspace. rewrite bool_decide_eq_false_2 by lia.
  rewrite (bool_decide_eq_true_2 (0 < _)%Z) by lia.
  rewrite (bool_decide_eq_true_2 (1 < _)%Z) by lia.
  intros [= <-].
  replace (Z.of_nat (S (S n)) - 1)%Z with (Z.of_nat (S n)) by lia.
  rewrite py_range_seq, !Nat2Z.id.
  set (y := _ <$> (_ <$> (_ <$> (_ <$> seq 0 (S (S n)))))).
  assert (Hy : length y = S (S n)).
  { unfold y. by rewrite !length_fmap, length_seq. }
  split; [by rewrite length_insert|]. intros k Hk.
  assert (HN : Qc_of_Z (Z.of_nat (S n)) ≠ 0) by (apply Qc_of_Z_neq0; lia).
  destruct (decide (k = S n)) as [->|Hne].
  - rewrite list_lookup_insert_eq by lia. f_equal. by field.
  - rewrite list_lookup_insert_ne by lia. unfold y.
    rewrite !list_lookup_fmap, lookup_seq_lt by lia. simpl. f_equal. ring.
Qed.

Lemma init_inv (name : string) (Dismat : matrix) (Nconfigs : Z) (Rcut : Qc)
    (Nknots : Z) (Rmin : option Qc) (Nswitch : option Z) (tb : Twobody.t) :
  Twobody.init name Dismat Nconfigs Rcut Nknots Rmin Nswitch = inr tb →
  ∃ rmin x C D B A v,
    Rmin = Some rmin ∧ (1 ≤ Nknots)%Z ∧
    np_linspace rmin Rcut (Nknots + 1) = inr x ∧
    spline_construction (Nknots + 1 - 1) (Nknots + 1)
      ((Rcut - rmin) / Qc_of_Z Nknots) = inr (C, D, B, A) ∧
    spline_energy_model Rcut rmin Dismat (Nknots + 1)
      ((Rcut - rmin) / Qc_of_Z Nknots) Nconfigs x = inr v ∧
    tb = Twobody.mk name Rcut rmin Nknots Nswitch Dismat Nconfigs
           ((Rcut - rmin) / Qc_of_Z Nknots) (Nknots + 1) x C D B A v.
Proof.
  unfold Twobody.init, Twobody.get_v. destruct Rmin as [rmin|]; [|done].
  cbn [mbind py_bind mret py_ret]. case_bool_decide as HN; [done|].
  cbn [mbind py_bind mret py_ret]. intros Hrun.
  apply bind_succeeds in Hrun as (x & Hx & Hrun).
  apply bind_succeeds in Hrun as ([[[C D] B] A] & Hok & Hrun).
  apply bind_succeeds in Hrun as (v & Hv & Hrun).
  injection Hrun as <-.
  destruct (spline_construction_inv _ _ _ _ Hok) as [Hrows _].
  exists rmin, x, C, D, B, A, v. split_and!; first [assumption|lia|reflexivity].
Qed.

(** X18.  Every object [__init__] returns was built from a given [Rmin] and
    [Nknots >= 1]; it stores its arguments unchanged, [cols = Nknots + 1],
    basis matrices of shape [(Nknots, Nknots + 1)] and a design matrix of
    shape [(Nconfigs, Nknots + 1)] with [0 <= Nconfigs <= len(Dismat)], and
    calling [get_v] on the stored attributes gives the stored [v] again. *)
Theorem init_object_invariant (name : string) (Dismat : matrix)
    (Nconfigs : Z) (Rcut : Qc) (Nknots : Z) (Rmin : option Qc)
    (Nswitch : option Z) (tb : Twobody.t) :
  Twobody.init name Dismat Nconfigs Rcut Nknots Rmin Nswitch = inr tb →
  Rmin = Some (Twobody.Rmin tb) ∧ (1 ≤ Nknots)%Z ∧
  (0 ≤ Nconfigs ≤ Z.of_nat (length Dismat))%Z ∧
  (Twobody.name tb = name ∧ Twobody.Rcut tb = Rcut ∧
   Twobody.Nknots tb = Nknots ∧ Twobody.Nswitch tb = Nswitch ∧
   Twobody.Dismat tb = Dismat ∧ Twobody.Nconfigs tb = Nconfigs ∧
   Twobody.cols tb = (Nknots + 1)%Z) ∧
  (shape (Z.to_nat Nknots) (Z.to_nat (Nknots + 1)) (Twobody.C tb) ∧
   shape (Z.to_nat Nknots) (Z.to_nat (Nknots + 1)) (Twobody.D tb) ∧
   shape (Z.to_nat Nknots) (Z.to_nat (Nknots + 1)) (Twobody.B tb) ∧
   shape (Z.to_nat Nknots) (Z.to_nat (Nknots + 1)) (Twobody.A tb) ∧
   shape (Z.to_nat Nconfigs) (Z.to_nat (Nknots + 1)) (Twobody.v tb)) ∧
  Twobody.get_v (Twobody.Rcut tb) (Twobody.Rmin tb) (Twobody.Dismat tb)
    (Twobody.cols tb) (Twobody.dx tb) (Twobody.Nconfigs tb)
    (Twobody.interval tb) = inr (Twobody.v tb).
Proof.
  intros Hinit.
  destruct (init_inv _ _ _ _ _ _ _ _ Hinit)
    as (rmin & x & C & D & B & A & v & -> & HN & Hx & Hok & Hv & ->).
  cbn [Twobody.name Twobody.Rcut Twobody.Rmin Twobody.Nknots Twobody.Nswitch
       Twobody.Dismat Twobody.Nconfigs Twobody.dx Twobody.cols
       Twobody.interval Twobody.C Twobody.D Twobody.B Twobody.A Twobody.v].
  set (dx := (Rcut - rmin) / Qc_of_Z Nknots) in *. clearbody dx.
  destruct (energy_model_rows _ _ _ _ _ _ _ _ Hv)
    as (CDBA & _ & Hlen & Hrows).
  assert (Hsize : (0 ≤ Nconfigs)%Z).
  { destruct (decide (0 ≤ Nconfigs)%Z) as [|Hneg]; [done|]. exfalso.
    unfold spline_energy_model in Hv. rewrite Hok in Hv.
    cbn [mbind py_bind] in Hv. by rewrite np_zeros_neg in Hv by lia. }
  assert (Hrowsdf : (Z.to_nat Nconfigs ≤ length Dismat)%nat).
  { destruct (Z.to_nat Nconfigs) as [|k] eqn:Hk; [lia|].
    destruct (Hrows k) as (row & _ & Hrow & _); [lia|].
    apply lookup_lt_Some in Hrow. lia. }
  assert (Hshapes : shape (Z.to_nat Nknots) (Z.to_nat (Nknots + 1)) C ∧
                    shape (Z.to_nat Nknots) (Z.to_nat (Nknots + 1)) D ∧
                    shape (Z.to_nat Nknots) (Z.to_nat (Nknots + 1)) B ∧
                    shape (Z.to_nat Nknots) (Z.to_nat (Nknots + 1)) A).
  { clear Hv Hrows Hx Hlen. destruct (Z.to_nat Nknots) as [|n] eqn:Hn; [lia|].
    assert (Nknots = Z.of_nat (S n)) as -> by lia.
    replace (Z.of_nat (S n) + 1 - 1)%Z with (Z.of_nat (S n)) in Hok by lia.
    replace (Z.of_nat (S n) + 1)%Z with (Z.of_nat (S (S n))) in * by lia.
    destruct (spline_construction_ok n (S n) dx)
      as (C0 & D0 & B' & A' & Hok' & _ & _ & HsC & HsD & HsB & HsA).
    rewrite Hok' in Hok. injection Hok as HC HD HB HA. subst C D B A.
    rewrite Nat2Z.id.
    split_and!; first [assumption | by apply shape_snoc_zeros]. }
  destruct Hshapes as (HsC & HsD & HsB & HsA).
  pose proof (energy_model_shape _ _ _ _ _ _ _ _ Hv) as Hsv.
  split_and!; first [reflexivity|assumption|lia].
Qed.

Lemma init_object_invariant_witness :
  let tb := Twobody.mk "AB" 2 1 1 None [[qc 3 2; qc 5 1]] 1 1 2 [1; 2]
              [[0; 1]] [[- 1; 1]] [[0; 0]] [[0; 0]] [[qc 1 48; qc 5 48]] in
  Twobody.init "AB" [[qc 3 2; qc 5 1]] 1 2 1 (Some 1) None = inr tb ∧
  shape 1 2 (Twobody.v tb) ∧
  Twobody.get_v 2 1 [[qc 3 2; qc 5 1]] 2 1 1 [1; 2] = inr (Twobody.v tb).
Proof.
  intros tb.
  assert (Hinit : Twobody.init "AB" [[qc 3 2; qc 5 1]] 1 2 1 (Some 1) None
                  = inr tb) by by_compute.
  split; [exact Hinit|].
  destruct (init_object_invariant _ _ _ _ _ _ _ _ Hinit)
    as (_ & _ & _ & _ & (_ & _ & _ & _ & Hsv) & Hget).
  split; [exact Hsv | exact Hget].
Defined.

(** X19.  The knots of a constructed object are the uniform grid
    [Rmin + k * dx], [k = 0, ..., Nknots]; there are [Nknots + 1] of them
    and the last one is [Rcut]. *)
Theorem init_knots (name : string) (Dismat : matrix) (Nconfigs : Z)
    (Rcut : Qc) (Nknots : Z) (Rmin : option Qc) (Nswitch : option Z)
    (tb : Twobody.t) :
  Twobody.init name Dismat Nconfigs Rcut Nknots Rmin Nswitch = inr tb →
  Z.of_nat (length (Twobody.interval tb)) = (Nknots + 1)%Z ∧
  (∀ k : nat, (Z.of_nat k ≤ Nknots)%Z →
     Twobody.interval tb !! k =
       Some (Twobody.Rmin tb + Qc_of_Z (Z.of_nat k) * Twobody.dx tb)) ∧
  Twobody.Rmin tb + Qc_of_Z Nknots * Twobody.dx tb = Rcut.
Proof.
  intros Hinit.
  destruct (init_inv _ _ _ _ _ _ _ _ Hinit)
    as (rmin & x & C & D & B & A & v & -> & HN & Hx & _ & _ & ->).
  cbn [Twobody.Rmin Twobody.dx Twobody.interval].
  assert (HNne : Qc_of_Z Nknots ≠ 0) by by apply Qc_of_Z_neq0.
  destruct (Z.to_nat Nknots) as [|n] eqn:Hn; [lia|].
  assert (HNk : Nknots = Z.of_nat (S n)) by lia. clear Hn.
  replace (Nknots + 1)%Z with (Z.of_nat (S (S n))) in * by lia.
  rewrite HNk in *.
  destruct (np_linspace_uniform _ _ _ _ Hx) as [Hlen Hknots].
  split_and!.
  - lia.
  - intros k Hk. apply Hknots. lia.
  - by field.
Qed.

Lemma init_knots_witness :
  let tb := Twobody.mk "AB" 2 1 1 None [[qc 3 2; qc 5 1]] 1 1 2 [1; 2]
              [[0; 1]] [[- 1; 1]] [[0; 0]] [[0; 0]] [[qc 1 48; qc 5 48]] in
  Z.of_nat (length (Twobody.interval tb)) = (1 + 1)%Z ∧
  (∀ k : nat, (Z.of_nat k ≤ 1)%Z →
     Twobody.interval tb !! k =
       Some (Twobody.Rmin tb + Qc_of_Z (Z.of_nat k) * Twobody.dx tb)) ∧
  Twobody.Rmin tb + Qc_of_Z 1 * Twobody.dx tb = 2.
Proof.
  intros tb.
  apply (init_knots "AB" [[qc 3 2; qc 5 1]] 1 2 1 (Some 1) None tb).
  by_compute.
Defined.

(** X20.  With [Rcut < Rmin] the constructor still returns an object: its
    [dx] is negative and its design matrix is all zeros. *)
Theorem init_empty_window (name : string) (Dismat : matrix) (Nconfigs : Z)
    (Rcut : Qc) (Nknots : Z) (Rmin : Qc) (Nswitch : option Z) :
  (1 ≤ Nknots)%Z → Rcut < Rmin →
  (0 ≤ Nconfigs ≤ Z.of_nat (length Dismat))%Z →
  ∃ tb,
    Twobody.init name Dismat Nconfigs Rcut Nknots (Some Rmin) Nswitch =
      inr tb ∧
    Twobody.dx tb < 0 ∧
    Twobody.v tb =
      replicate (Z.to_nat Nconfigs) (replicate (Z.to_nat (Nknots + 1)) 0).
Proof.
  intros HN Hlt Hsize.
  destruct (init_total name Dismat Nconfigs Rcut Nknots Rmin Nswitch)
    as (tb & Hinit & Hdx & _ & _ & _ & Hv); [done| |done|].
  { intros ->. by apply (Qclt_not_eq _ _ Hlt). }
  exists tb. split; [done|]. split.
  - rewrite Hdx. unfold Qcdiv.
    assert (Hinv : 0 < / Qc_of_Z Nknots).
    { apply Qcinv_pos, Qc_of_Z_pos. lia. }
    assert (Hneg : Rcut - Rmin < 0).
    { apply (Qcplus_lt_mono_r _ _ Rmin).
      by replace (Rcut - Rmin + Rmin) with Rcut by ring;
         replace (0 + Rmin) with Rmin by ring. }
    replace 0 with (0 * / Qc_of_Z Nknots) by ring.
    by apply Qcmult_lt_mono_pos_r.
  - apply energy_model_rows in Hv as (CDBA & _ & Hlen & Hrows).
    apply list_eq_same_length with (Z.to_nat Nconfigs);
      [by rewrite length_replicate|assumption|].
    intros k r r' Hk Hr Hr'.
    destruct (Hrows k Hk) as (row & u & _ & Hu & Hvk).
    rewrite lookup_replicate_2 in Hr' by done.
    assert (qualifying Rcut Rmin row = []) as Hq.
    { apply elem_of_nil_inv. intros q [_ [Hlo Hhi]]%qualifying_spec.
      apply (Qclt_not_le _ _ Hlt). by etrans. }
    rewrite Hq in Hu. injection Hu as <-.
    rewrite Hvk in Hr. injection Hr as <-. by injection Hr' as <-.
Qed.

Lemma init_empty_window_witness :
  ∃ tb,
    Twobody.init "AB" [[qc 3 2; qc 5 1]; [qc 1 2]] 2 1 2 (Some 2) None =
      inr tb ∧
    Twobody.dx tb < 0 ∧
    Twobody.v tb = replicate (Z.to_nat 2) (replicate (Z.to_nat (2 + 1)) 0).
Proof.
  apply (init_empty_window "AB" [[qc 3 2; qc 5 1]; [qc 1 2]] 2 1 2 2 None);
    [lia|by_compute|simpl; lia].
Defined.
